(** * Teams operator: namespace reconciliation, verified against its source

    Shallow embedding of [src/part-five/operator/teams_operator.py]
    (class [TeamsOperator]): the name sanitizer, the in-memory state
    ([known_teams], [team_namespaces]), one reconciliation cycle and the
    outer polling loop.

    Conventions of the embedding:
    - a Python [str] is the list of its Unicode code points ([list N]);
    - a [set] of strings is a [gset], a [dict] keyed by strings a [gmap];
    - a JSON team object is a [dict] from field names to string values;
    - the effects of a cycle (state mutation, calls to the cluster, an
      exception that aborts the cycle) live in a small state, trace and
      error monad [M];
    - the answers of the outside world (the HTTP response of the teams
      registry, the responses of the Kubernetes API) are inputs of a
      cycle. *)

From Stdlib Require Import NArith ZArith Ascii.
From stdpp Require Import base numbers option list strings gmap fin_maps fin_sets.

Local Open Scope N_scope.

(** ** Python strings *)

Module PyStr.

(** [lit "abc"] is the Python literal ['abc']. *)
Definition lit (s : string) : list N :=
  map N_of_ascii (String.list_ascii_of_string s).
Arguments lit s%_string.

Definition hyphen : N := 45.

Definition is_ascii (c : N) : bool := c <? 128.

Definition is_ascii_digit (c : N) : bool := (48 <=? c) && (c <=? 57).
Definition is_ascii_upper (c : N) : bool := (65 <=? c) && (c <=? 90).
Definition is_ascii_lower (c : N) : bool := (97 <=? c) && (c <=? 122).

(** [c.isalnum()] on an ASCII code point. *)
Definition ascii_isalnum (c : N) : bool :=
  is_ascii_digit c || is_ascii_upper c || is_ascii_lower c.

(** [c.lower()] on an ASCII code point. *)
Definition ascii_lower (c : N) : N :=
  if is_ascii_upper c then c + 32 else c.

(** [s.split(sep)] for a one-character separator: never the empty list. *)
Fixpoint split (sep : N) (s : list N) : list (list N) :=
  match s with
  | [] => [[]]
  | c :: s' =>
      if c =? sep then [] :: split sep s'
      else match split sep s' with
           | seg :: segs => (c :: seg) :: segs
           | [] => [[c]]
           end
  end.

(** [sep.join(segs)]. *)
Fixpoint join (sep : list N) (segs : list (list N)) : list N :=
  match segs with
  | [] => []
  | [seg] => seg
  | seg :: segs' => seg ++ sep ++ join sep segs'
  end.

(** [filter(None, segs)]: the segments that are truthy, that is non-empty. *)
Definition truthy (seg : list N) : bool :=
  match seg with [] => false | _ :: _ => true end.

(** [s.lstrip(chars)], [s.rstrip(chars)] and [s.strip(chars)]. *)
Definition in_chars (chars : list N) (c : N) : bool :=
  existsb (N.eqb c) chars.

Fixpoint lstrip (chars : list N) (s : list N) : list N :=
  match s with
  | [] => []
  | c :: s' => if in_chars chars c then lstrip chars s' else s
  end.

Definition rstrip (chars : list N) (s : list N) : list N :=
  reverse (lstrip chars (reverse s)).

Definition strip (chars : list N) (s : list N) : list N :=
  rstrip chars (lstrip chars s).

End PyStr.

Import PyStr.

(** ** Data of the operator *)

Abbreviation str := (list N).

(** A team as the registry serves it: a JSON object, read as a [dict]
    from field names to string values (["id"], ["name"], ...). *)
Abbreviation team := (gmap (list N) (list N)).

(** The two attributes that [TeamsOperator.__init__] creates empty. *)
Record state := State {
  known_teams : gset str;
  team_namespaces : gmap str str
}.

Definition init_state : state :=
  {| known_teams := ∅; team_namespaces := ∅ |}.

(** What [session.get(".../teams")] and [response.json()] can do. *)
Inductive http_outcome :=
  | HttpResponse (status : Z) (payload : option (list team))
      (** a response arrived; [payload] is [None] when [response.json()]
          raises because the body does not parse *)
  | ClientError     (** [aiohttp.ClientError]: the registry is unreachable *)
  | OtherError.     (** any other exception raised by the request *)

(** What a call to the Kubernetes client can do. *)
Inductive api_result :=
  | ApiOk
  | ApiException (status : Z)
  | OtherException.

(** The cluster as one cycle sees it: its answer to each call, named by
    the arguments of the wrapper that issues the call. *)
Record cluster := Cluster {
  create_response : str -> str -> str -> api_result;
  delete_response : str -> str -> api_result
}.

Inductive exn :=
  | KeyError (key : str).

(** The observable actions of the operator. *)
Inductive event :=
  | CreateNamespace (team_id team_name namespace_name : str)
  | DeleteNamespace (namespace_name team_name : str)
  | LogSummary (teams namespaces : nat)
  | LogError (e : exn)
  | LogShutdown
  | Sleep (seconds : Z).

(** ** The monad of a cycle: state, trace of events, exception *)

Definition M (A : Type) : Type := state -> (A + exn) * state * list event.

Definition ret {A} (a : A) : M A := fun st => (inl a, st, []).

Definition bind {A B} (m : M A) (f : A -> M B) : M B :=
  fun st =>
    match m st with
    | (inl a, st1, tr1) =>
        match f a st1 with
        | (r, st2, tr2) => (r, st2, tr1 ++ tr2)
        end
    | (inr e, st1, tr1) => (inr e, st1, tr1)
    end.

Definition raise {A} (e : exn) : M A := fun st => (inr e, st, []).
Definition get : M state := fun st => (inl st, st, []).
Definition put (st : state) : M unit := fun _ => (inl tt, st, []).
Definition emit (ev : event) : M unit := fun st => (inl tt, st, [ev]).

Declare Scope py_scope.
Delimit Scope py_scope with py.
Notation "x <- m ;; k" := (bind m (fun x => k))
  (at level 100, m at next level, right associativity) : py_scope.
Notation "m ;; k" := (bind m (fun _ => k))
  (at level 100, right associativity) : py_scope.
Local Open Scope py_scope.

(** [for x in xs: body(x)] *)
Fixpoint for_each {X} (xs : list X) (body : X -> M unit) : M unit :=
  match xs with
  | [] => ret tt
  | x :: xs' => body x ;; for_each xs' body
  end.

(** [d[k]], which raises [KeyError] on a missing key. *)
Definition getitem {V} (d : gmap str V) (k : str) : M V :=
  match d !! k with
  | Some v => ret v
  | None => raise (KeyError k)
  end.

(** [self.team_namespaces[team_id] = namespace_name] *)
Definition set_team_namespace (team_id namespace_name : str) : M unit :=
  st <- get ;;
  put {| known_teams := known_teams st;
         team_namespaces := <[team_id := namespace_name]> (team_namespaces st) |}.

(** [del self.team_namespaces[team_id]] *)
Definition del_team_namespace (team_id : str) : M unit :=
  st <- get ;;
  match team_namespaces st !! team_id with
  | Some _ =>
      put {| known_teams := known_teams st;
             team_namespaces := delete team_id (team_namespaces st) |}
  | None => raise (KeyError team_id)
  end.

(** [self.known_teams = ids] *)
Definition set_known_teams (ids : gset str) : M unit :=
  st <- get ;;
  put {| known_teams := ids; team_namespaces := team_namespaces st |}.

(** ** The operator *)

Section Operator.

(** Python's Unicode tables decide [isalnum] and [lower] outside ASCII.
    They are not part of the repository: the development holds for every
    such table.  [lower] is not character-wise outside ASCII (final
    sigma, characters that lower to two code points), so the table for
    it acts on whole strings that hold a non-ASCII character. *)
Variable uni_isalnum : N -> bool.
Variable uni_lower : list N -> list N.

(** [c.isalnum()] *)
Definition isalnum (c : N) : bool :=
  if is_ascii c then ascii_isalnum c else uni_isalnum c.

(** [s.lower()] *)
Definition lower (s : str) : str :=
  if forallb is_ascii s then map ascii_lower s else uni_lower s.

(** [TeamsOperator.sanitize_namespace_name] *)
Definition sanitize_namespace_name (team_name : str) : str :=
  let namespace := lower team_name in
  let namespace := map (fun c => if isalnum c then c else hyphen) namespace in
  let namespace := join (lit "-") (List.filter truthy (split hyphen namespace)) in
  let namespace := strip (lit "-") namespace in
  let namespace :=
    if (63 <? length namespace)%nat
    then rstrip (lit "-") (take 63 namespace)
    else namespace in
  lit "team-" ++ namespace.

(** [TeamsOperator.fetch_teams]: every failure is logged and answered
    with the empty list. *)
Definition fetch_teams (h : http_outcome) : list team :=
  match h with
  | HttpResponse status payload =>
      if (status =? 200)%Z then
        match payload with
        | Some teams => teams
        | None => []
        end
      else []
  | ClientError => []
  | OtherError => []
  end.

(** [TeamsOperator.create_namespace]: [True] when the namespace was
    created or exists already (HTTP 409). *)
Definition create_namespace (k8s : cluster)
    (team_id team_name namespace_name : str) : M bool :=
  emit (CreateNamespace team_id team_name namespace_name) ;;
  match create_response k8s team_id team_name namespace_name with
  | ApiOk => ret true
  | ApiException status => if (status =? 409)%Z then ret true else ret false
  | OtherException => ret false
  end.

(** [TeamsOperator.delete_namespace]: [True] when the namespace was
    deleted or is gone already (HTTP 404). *)
Definition delete_namespace (k8s : cluster)
    (namespace_name team_name : str) : M bool :=
  emit (DeleteNamespace namespace_name team_name) ;;
  match delete_response k8s namespace_name team_name with
  | ApiOk => ret true
  | ApiException status => if (status =? 404)%Z then ret true else ret false
  | OtherException => ret false
  end.

(** [{team['id']: team for team in teams}] *)
Fixpoint teams_by_id (teams : list team)
    (acc : gmap str team)
    : M (gmap str team) :=
  match teams with
  | [] => ret acc
  | t :: teams' =>
      team_id <- getitem t (lit "id") ;;
      teams_by_id teams' (<[team_id := t]> acc)
  end.

(** The body of the loop over [new_teams]. *)
Definition handle_new_team (k8s : cluster)
    (current_teams : gmap str team)
    (team_id : str) : M unit :=
  t <- getitem current_teams team_id ;;
  team_name <- getitem t (lit "name") ;;
  let namespace_name := sanitize_namespace_name team_name in
  ok <- create_namespace k8s team_id team_name namespace_name ;;
  if ok : bool then set_team_namespace team_id namespace_name else ret tt.

(** The body of the loop over [deleted_teams]. *)
Definition handle_deleted_team (k8s : cluster) (team_id : str) : M unit :=
  st <- get ;;
  match team_namespaces st !! team_id with
  | Some namespace_name =>
      let team_name := lit "team-" ++ team_id in
      ok <- delete_namespace k8s namespace_name team_name ;;
      if ok : bool then del_team_namespace team_id else ret tt
  | None => ret tt
  end.

(** The two set differences of a cycle. *)
Definition new_teams (current_team_ids known : gset str) : gset str :=
  current_team_ids ∖ known.

Definition deleted_teams (current_team_ids known : gset str) : gset str :=
  known ∖ current_team_ids.

(** [TeamsOperator.reconcile_teams]: one cycle.  The two [for] loops run
    over Python sets, whose order the language leaves open; here they run
    in the order of [elements]. *)
Definition reconcile_teams (h : http_outcome) (k8s : cluster) : M unit :=
  let teams := fetch_teams h in
  current_teams <- teams_by_id teams ∅ ;;
  let current_team_ids := dom current_teams in
  st <- get ;;
  let new := new_teams current_team_ids (known_teams st) in
  for_each (elements new) (handle_new_team k8s current_teams) ;;
  st <- get ;;
  let deleted := deleted_teams current_team_ids (known_teams st) in
  for_each (elements deleted) (handle_deleted_team k8s) ;;
  set_known_teams current_team_ids ;;
  if bool_decide (new ≠ ∅) || bool_decide (deleted ≠ ∅) then
    st <- get ;;
    emit (LogSummary (size current_teams) (size (team_namespaces st)))
  else ret tt.

(** What the outside world does during one turn of the main loop. *)
Inductive turn :=
  | Poll (h : http_outcome) (k8s : cluster)
      (** the sleep elapses and a cycle runs against these answers *)
  | Interrupt.
      (** [KeyboardInterrupt] is raised while the loop sleeps *)

Inductive status :=
  | Running            (** still inside [while True] *)
  | Exited             (** left the loop through [break] *)
  | Crashed (e : exn). (** an exception left [run] *)

(** The [while True] loop of [TeamsOperator.run], for as many turns as
    the outside world has been observed. *)
Fixpoint main_loop (poll_interval : Z) (turns : list turn) (st : state)
    : status * state * list event :=
  match turns with
  | [] => (Running, st, [])
  | Interrupt :: _ => (Exited, st, [LogShutdown])
  | Poll h k8s :: turns' =>
      match reconcile_teams h k8s st with
      | (inl _, st1, tr1) =>
          match main_loop poll_interval turns' st1 with
          | (s, st2, tr2) => (s, st2, Sleep poll_interval :: tr1 ++ tr2)
          end
      | (inr e, st1, tr1) =>
          match main_loop poll_interval turns' st1 with
          | (s, st2, tr2) =>
              (s, st2,
               Sleep poll_interval :: tr1
                 ++ LogError e :: Sleep poll_interval :: tr2)
          end
      end
  end.

(** [TeamsOperator.run]: the initial cycle, then the loop. *)
Definition run (poll_interval : Z) (h : http_outcome) (k8s : cluster)
    (turns : list turn) (st : state) : status * state * list event :=
  match reconcile_teams h k8s st with
  | (inl _, st1, tr1) =>
      match main_loop poll_interval turns st1 with
      | (s, st2, tr2) => (s, st2, tr1 ++ tr2)
      end
  | (inr e, st1, tr1) => (Crashed e, st1, tr1)
  end.

(** ** Vocabulary of the specification *)

(** What follows the prefix in a sanitized name, and the name before it
    is stripped and cut. *)
Definition name_body (team_name : str) : str :=
  drop 5 (sanitize_namespace_name team_name).

Definition collapsed (team_name : str) : str :=
  join [hyphen]
    (List.filter truthy
       (split hyphen
          (map (fun c => if isalnum c then c else hyphen) (lower team_name)))).

(** The ids that occur in a list of teams. *)
Definition team_ids (teams : list team) : gset str :=
  list_to_set (omap (fun t : team => t !! lit "id") teams).

(** The dictionary that [{team['id']: team for team in teams}] builds
    when every team has an id (a later team replaces an earlier one with
    the same id), and the name under which a cycle creates an id. *)
Definition add_team (acc : gmap str team) (t : team) : gmap str team :=
  match t !! lit "id" with
  | Some team_id => <[team_id := t]> acc
  | None => acc
  end.

Definition current_teams_of (teams : list team) : gmap str team :=
  foldl add_team ∅ teams.

Definition desired_name (teams : list team) (team_id : str) : option str :=
  match current_teams_of teams !! team_id with
  | Some t => t !! lit "name"
  | None => None
  end.

(** A team that has the two fields a cycle reads. *)
Definition well_formed (t : team) : Prop :=
  is_Some (t !! lit "id") /\ is_Some (t !! lit "name").

(** A fetch fails on a connection error, on a status other than 200 and
    on a payload that does not parse. *)
Definition fetch_failed (h : http_outcome) : bool :=
  match h with
  | HttpResponse status (Some _) => negb (status =? 200)%Z
  | HttpResponse _ None => true
  | ClientError => true
  | OtherError => true
  end.

(** The calls that a cycle may issue from state [st] on the fetch [h]:
    creates go to fetched ids that are not known, deletes to known ids
    that were not fetched and have a namespace on record, and the
    summary is logged when one of the two differences is not empty. *)
Definition cycle_event (h : http_outcome) (st : state) (ev : event) : Prop :=
  let D := team_ids (fetch_teams h) in
  let K := known_teams st in
  match ev with
  | CreateNamespace team_id team_name namespace_name =>
      team_id ∈ D ∖ K
      /\ desired_name (fetch_teams h) team_id = Some team_name
      /\ namespace_name = sanitize_namespace_name team_name
  | DeleteNamespace namespace_name team_name =>
      exists team_id, team_name = lit "team-" ++ team_id
        /\ team_id ∈ K ∖ D
        /\ team_namespaces st !! team_id = Some namespace_name
  | LogSummary _ _ => D ∖ K <> ∅ \/ K ∖ D <> ∅
  | _ => False
  end.

(** The three outcomes of a create and of a delete. *)
Inductive create_outcome := Created | AlreadyExists | CreateFailed.
Inductive delete_outcome := Deleted | NotFound | DeleteFailed.

Definition create_outcome_of (r : api_result) : create_outcome :=
  match r with
  | ApiOk => Created
  | ApiException status => if (status =? 409)%Z then AlreadyExists else CreateFailed
  | OtherException => CreateFailed
  end.

Definition delete_outcome_of (r : api_result) : delete_outcome :=
  match r with
  | ApiOk => Deleted
  | ApiException status => if (status =? 404)%Z then NotFound else DeleteFailed
  | OtherException => DeleteFailed
  end.

(** The outcome of the create for a team, and of the delete for an id
    whose namespace is [namespace_name], against a cluster. *)
Definition create_outcome_for (k8s : cluster) (team_id team_name : str)
    : create_outcome :=
  create_outcome_of
    (create_response k8s team_id team_name (sanitize_namespace_name team_name)).

Definition delete_outcome_for (k8s : cluster) (team_id namespace_name : str)
    : delete_outcome :=
  delete_outcome_of
    (delete_response k8s namespace_name (lit "team-" ++ team_id)).

(** A sequence of cycles that all run to completion. *)
Fixpoint run_cycles (cycles : list (http_outcome * cluster)) (st : state)
    : option state :=
  match cycles with
  | [] => Some st
  | (h, k8s) :: cycles' =>
      match reconcile_teams h k8s st with
      | (inl _, st1, _) => run_cycles cycles' st1
      | (inr _, _, _) => None
      end
  end.

End Operator.

Definition final_state {A} (x : (A + exn) * state * list event) : state := x.1.2.
Definition trace_of {A} (x : (A + exn) * state * list event) : list event := x.2.
Definition result_of {A} (x : (A + exn) * state * list event) : A + exn := x.1.1.

(** ** Sample data *)

Module Sample.

(** Unicode tables that know no letter and no case outside ASCII. *)
Definition no_isalnum : N -> bool := fun _ => false.
Definition no_lower : list N -> list N := fun s => s.

Definition team_object (team_id team_name : str) : team :=
  <[lit "id" := team_id]> (<[lit "name" := team_name]> ∅).

Definition alpha : team := team_object (lit "1") (lit "Alpha").
Definition beta : team := team_object (lit "2") (lit "Beta").
Definition gamma : team := team_object (lit "3") (lit "Gamma").

(** A team object without an ["id"], and one without a ["name"]. *)
Definition no_id : team := <[lit "name" := lit "Delta"]> ∅.
Definition no_name : team := <[lit "id" := lit "5"]> ∅.

(** A cluster that accepts every call, one that fails every call with
    HTTP 500, and one in which every namespace to create exists. *)
Definition cluster_ok : cluster :=
  Cluster (fun _ _ _ => ApiOk) (fun _ _ => ApiOk).
Definition cluster_failing : cluster :=
  Cluster (fun _ _ _ => ApiException 500) (fun _ _ => ApiException 500).
Definition cluster_existing : cluster :=
  Cluster (fun _ _ _ => ApiException 409) (fun _ _ => ApiOk).

Definition ok (teams : list team) : http_outcome :=
  HttpResponse 200 (Some teams).

(** The state after team ["1"], named Alpha, got its namespace. *)
Definition tracking_alpha : state :=
  {| known_teams := {[ lit "1" ]};
     team_namespaces := {[ lit "1" := lit "team-alpha" ]} |}.

(** The state after the create for team ["3"] failed, and the state
    after the delete for team ["1"] failed. *)
Definition after_failed_create : state :=
  {| known_teams := {[ lit "3" ]}; team_namespaces := ∅ |}.

Definition after_failed_delete : state :=
  {| known_teams := ∅;
     team_namespaces := {[ lit "1" := lit "team-alpha" ]} |}.

End Sample.


(** * More of the code: definitions *)

(** ** The naming rule that the sanitizer aims at

    The comments of [sanitize_namespace_name] name the rule: at most 63
    characters, lowercase letters, digits and hyphens, an alphanumeric
    character at both ends. *)

Definition is_label_alnum (c : N) : bool := is_ascii_lower c || is_ascii_digit c.
Definition is_label_char (c : N) : bool := is_label_alnum c || (c =? hyphen).

Definition valid_namespace_name (s : str) : bool :=
  (length s <=? 63)%nat
  && forallb is_label_char s
  && match head s with Some c => is_label_alnum c | None => false end
  && match last s with Some c => is_label_alnum c | None => false end.

(** Two hyphens in a row. *)
Fixpoint double_hyphen (s : str) : bool :=
  match s with
  | c :: s' =>
      match s' with
      | d :: _ => (c =? hyphen) && (d =? hyphen) || double_hyphen s'
      | [] => false
      end
  | [] => false
  end.

(** ** The calls of a cycle *)

Section Calls.

Variable uni_isalnum : N -> bool.
Variable uni_lower : list N -> list N.

(** The create that a cycle issues for a new team id of the fetched
    teams, and the delete that it issues for a removed team id. *)
Definition create_call (teams : list team) (team_id : str) : option event :=
  match desired_name teams team_id with
  | Some team_name =>
      Some (CreateNamespace team_id team_name
              (sanitize_namespace_name uni_isalnum uni_lower team_name))
  | None => None
  end.

Definition delete_call (st : state) (team_id : str) : option event :=
  match team_namespaces st !! team_id with
  | Some namespace_name =>
      Some (DeleteNamespace namespace_name (lit "team-" ++ team_id))
  | None => None
  end.


(** A namespace name that the sanitizer produced. *)
Definition sanitized (namespace_name : str) : Prop :=
  exists team_name,
    namespace_name = sanitize_namespace_name uni_isalnum uni_lower team_name.

(** A state whose recorded names all come from the sanitizer. *)
Definition all_sanitized (st : state) : Prop :=
  forall team_id namespace_name,
    team_namespaces st !! team_id = Some namespace_name ->
    sanitized namespace_name.

End Calls.

(** ** The label of a namespace

    [create_namespace] labels the namespace with
    [team_name.replace(" ", "-").lower()]. *)

Definition replace_char (old new : N) (s : str) : str :=
  map (fun c => if c =? old then new else c) s.

Definition team_name_label (uni_lower : list N -> list N) (team_name : str) : str :=
  lower uni_lower (replace_char 32 hyphen team_name).

(** ** The registry: [src/part-four/main.py]

    The handlers of the Teams API, as functions of the store.  The
    store, [teams_store], is a Python [dict]: keys are distinct and keep
    the order in which they were inserted, so it is a list of pairs.  The
    id that [uuid.uuid4()] draws and the time that [datetime.now()] reads
    are inputs of [create_team]; the time is kept as the text in which
    the API serialises it. *)

Module Api.

Record Team := {
  id : str;
  name : str;
  created_at : str
}.

Section Dict.

Context {V : Type}.

(** [d.get(k)], [d[k] = v] and [d.pop(k)]. *)
Fixpoint dict_get (d : list (str * V)) (k : str) : option V :=
  match d with
  | [] => None
  | (k', v) :: d' => if decide (k' = k) then Some v else dict_get d' k
  end.

Fixpoint dict_set (d : list (str * V)) (k : str) (v : V) : list (str * V) :=
  match d with
  | [] => [(k, v)]
  | (k', v') :: d' =>
      if decide (k' = k) then (k, v) :: d' else (k', v') :: dict_set d' k v
  end.

Fixpoint dict_pop (d : list (str * V)) (k : str) : list (str * V) :=
  match d with
  | [] => []
  | (k', v') :: d' =>
      if decide (k' = k) then d' else (k', v') :: dict_pop d' k
  end.

End Dict.

(** What a handler answers: a value, or [HTTPException]. *)
Inductive response (A : Type) :=
  | Return (a : A)
  | HTTPException (status_code : Z) (detail : str).
Arguments Return {A} a.
Arguments HTTPException {A} status_code detail.

Section Handlers.

Variable uni_lower : list N -> list N.

(** [POST /teams] *)
Definition create_team (teams_store : list (str * Team))
    (team_name : str) (uuid4 now : str)
    : response Team * list (str * Team) :=
  if existsb
       (fun existing : Team =>
          bool_decide (lower uni_lower (name existing)
                       = lower uni_lower team_name))
       teams_store.*2
  then (HTTPException 400 (lit "Team name already exists"), teams_store)
  else
    let new_team := {| id := uuid4; name := team_name; created_at := now |} in
    (Return new_team, dict_set teams_store uuid4 new_team).

(** [GET /teams] *)
Definition get_teams (teams_store : list (str * Team)) : list Team :=
  teams_store.*2.

(** [GET /teams/{team_id}] *)
Definition get_team (teams_store : list (str * Team)) (team_id : str)
    : response Team :=
  match dict_get teams_store team_id with
  | Some t => Return t
  | None => HTTPException 404 (lit "Team not found")
  end.

(** [DELETE /teams/{team_id}] *)
Definition delete_team (teams_store : list (str * Team)) (team_id : str)
    : response str * list (str * Team) :=
  match dict_get teams_store team_id with
  | Some deleted_team =>
      (Return (lit "Team '" ++ name deleted_team ++ lit "' deleted successfully"),
       dict_pop teams_store team_id)
  | None => (HTTPException 404 (lit "Team not found"), teams_store)
  end.

(** [GET /health]: the status and [teams_count]. *)
Definition health_check (teams_store : list (str * Team)) : str * nat :=
  (lit "healthy", length teams_store).

(** The requests that write the store, and the store after a sequence of
    them. *)
Inductive request :=
  | PostTeam (team_name uuid4 now : str)
  | DeleteTeam (team_id : str).

Definition serve (teams_store : list (str * Team)) (req : request)
    : list (str * Team) :=
  match req with
  | PostTeam team_name uuid4 now => (create_team teams_store team_name uuid4 now).2
  | DeleteTeam team_id => (delete_team teams_store team_id).2
  end.

Definition serve_all (reqs : list request) : list (str * Team) :=
  foldl serve [] reqs.

End Handlers.

(** A team as [GET /teams] serialises it, and the payload that the
    operator fetches. *)
Definition to_json (t : Team) : team :=
  <[lit "id" := id t]>
    (<[lit "name" := name t]> (<[lit "created_at" := created_at t]> ∅)).

Definition payload (teams_store : list (str * Team)) : http_outcome :=
  HttpResponse 200 (Some (to_json <$> get_teams teams_store)).

(** What a store built by the handlers satisfies: the key of a team is
    its id, keys are distinct, and so are the lowered names. *)
Definition store_ok (uni_lower : list N -> list N)
    (teams_store : list (str * Team)) : Prop :=
  NoDup teams_store.*1
  /\ Forall (fun kt : str * Team => id kt.2 = kt.1) teams_store
  /\ NoDup ((fun kt : str * Team => lower uni_lower (name kt.2)) <$> teams_store).

End Api.

(** ** More sample data *)

Module SampleMore.

Import Sample.

(** Two teams whose names sanitize to ["team-a-b"], and the state in
    which both are recorded under that name. *)
Definition a_b : team := team_object (lit "1") (lit "a b").
Definition a_dash_b : team := team_object (lit "2") (lit "a-b").

Definition sharing : state :=
  {| known_teams := {[ lit "1"; lit "2" ]};
     team_namespaces :=
       {[ lit "1" := lit "team-a-b"; lit "2" := lit "team-a-b" ]} |}.

(** The team that the registry stores for the name Alpha, and the store
    that holds it. *)
Definition alpha_record : Api.Team :=
  {| Api.id := lit "1"; Api.name := lit "Alpha";
     Api.created_at := lit "2025-01-01T00:00:00" |}.

Definition alpha_store : list (str * Api.Team) := [(lit "1", alpha_record)].

End SampleMore.

(** * Properties *)

(** ** String helpers *)

Section StringFacts.

Variable chars : list N.

Lemma lstrip_suffix s : lstrip chars s `suffix_of` s.
Proof.
  induction s as [|c s IH]; simpl; [done|].
  destruct (in_chars chars c); [by apply suffix_cons_r | done].
Qed.

Lemma lstrip_head s c : head (lstrip chars s) = Some c -> in_chars chars c = false.
Proof.
  induction s as [|d s IH]; simpl; [done|].
  destruct (in_chars chars d) eqn:Hd; [done|].
  simpl. by intros [= <-].
Qed.

Lemma rstrip_prefix s : rstrip chars s `prefix_of` s.
Proof.
  unfold rstrip. rewrite <-(reverse_involutive s) at 2.
  apply suffix_prefix_reverse, lstrip_suffix.
Qed.

Lemma rstrip_last s c : last (rstrip chars s) = Some c -> in_chars chars c = false.
Proof. unfold rstrip. rewrite last_reverse. apply lstrip_head. Qed.

Lemma rstrip_length s : (length (rstrip chars s) <= length s)%nat.
Proof. apply prefix_length, rstrip_prefix. Qed.

Lemma rstrip_elem_of s c : c ∈ rstrip chars s -> c ∈ s.
Proof. intros Hc. eapply elem_of_prefix; [exact Hc | apply rstrip_prefix]. Qed.

Lemma strip_elem_of s c : c ∈ strip chars s -> c ∈ s.
Proof.
  unfold strip. intros Hc%rstrip_elem_of.
  eapply elem_of_suffix; [exact Hc | apply lstrip_suffix].
Qed.

Lemma strip_length s : (length (strip chars s) <= length s)%nat.
Proof.
  unfold strip. etrans; [apply rstrip_length|].
  apply suffix_length, lstrip_suffix.
Qed.

Lemma lstrip_nil s :
  lstrip chars s = [] <-> Forall (fun c => in_chars chars c = true) s.
Proof.
  induction s as [|c s IH]; simpl; [by split|].
  rewrite Forall_cons. destruct (in_chars chars c); [|split; [done|]].
  - rewrite IH. naive_solver.
  - by intros [? _].
Qed.

Lemma rstrip_nil s :
  rstrip chars s = [] <-> Forall (fun c => in_chars chars c = true) s.
Proof.
  unfold rstrip. rewrite <-(Forall_reverse _ s), <-lstrip_nil. split.
  - intros H. apply (f_equal reverse) in H. by rewrite reverse_involutive in H.
  - by intros ->.
Qed.

(** Stripping on the right keeps a first character that is not stripped. *)
Lemma rstrip_head s c :
  head s = Some c -> in_chars chars c = false -> head (rstrip chars s) = Some c.
Proof.
  intros Hh Hc. destruct (rstrip chars s) as [|d r] eqn:Hr.
  - apply rstrip_nil in Hr. destruct s as [|c' s]; [done|].
    injection Hh as ->. apply Forall_cons in Hr as [Hr _]. congruence.
  - pose proof (rstrip_prefix s) as Hp. rewrite Hr in Hp.
    destruct Hp as [k ->]. done.
Qed.

End StringFacts.

Lemma prefix_head {A} (p l : list A) a :
  p `prefix_of` l -> head p = Some a -> head l = Some a.
Proof. intros [k ->]. by destruct p. Qed.

Lemma split_Forall (P : N -> Prop) sep s :
  Forall P s -> Forall (Forall P) (split sep s).
Proof.
  induction 1 as [|c s Hc Hs IH]; simpl; [by repeat constructor|].
  destruct (c =? sep).
  - by constructor.
  - destruct (split sep s) as [|seg segs]; [by repeat constructor|].
    inversion IH; subst. constructor; [by constructor | done].
Qed.

Lemma join_Forall (P : N -> Prop) sep segs :
  Forall P sep -> Forall (Forall P) segs -> Forall P (join sep segs).
Proof.
  intros Hsep. induction 1 as [|seg segs Hseg Hsegs IH]; simpl; [done|].
  destruct segs as [|seg' segs']; [done|].
  rewrite !Forall_app. auto.
Qed.

(** Splitting and joining lose no character other than the separator. *)
Lemma split_elem_of sep s c :
  c ∈ s -> c <> sep -> exists seg, seg ∈ split sep s /\ c ∈ seg.
Proof.
  induction s as [|d s IH]; [by intros ?%elem_of_nil|].
  intros [->|Hc]%elem_of_cons Hne; simpl.
  - destruct (N.eqb_spec d sep) as [|_]; [done|].
    destruct (split sep s) as [|seg segs]; eexists; split; left.
  - destruct (IH Hc Hne) as (seg & Hseg & Hin).
    destruct (d =? sep); [exists seg; split; [by right | done]|].
    destruct (split sep s) as [|seg' segs]; [by apply elem_of_nil in Hseg|].
    apply elem_of_cons in Hseg as [->|Hseg].
    + exists (d :: seg'). split; [left | by right].
    + exists seg. split; [by right | done].
Qed.

Lemma join_elem_of sep segs seg c :
  seg ∈ segs -> c ∈ seg -> c ∈ join sep segs.
Proof.
  induction segs as [|seg' segs IH]; [by intros ?%elem_of_nil|].
  intros [->|Hseg]%elem_of_cons Hc; simpl.
  - destruct segs; [done|]. rewrite elem_of_app. by left.
  - destruct segs as [|seg'' segs]; [by apply elem_of_nil in Hseg|].
    rewrite !elem_of_app. right; right. by apply IH.
Qed.

Lemma split_all_sep sep s :
  Forall (fun c => c = sep) s -> List.filter truthy (split sep s) = [].
Proof.
  induction 1 as [|c s -> Hs IH]; simpl; [done|].
  by rewrite N.eqb_refl.
Qed.

Lemma filter_Forall {A} (P : A -> Prop) f (l : list A) :
  Forall P l -> Forall P (List.filter f l).
Proof.
  induction 1 as [|x l Hx Hl IH]; simpl; [done|].
  destruct (f x); [by constructor | done].
Qed.

(** ** The sanitizer *)

Section Sanitizer.

Variable uni_isalnum : N -> bool.
Variable uni_lower : list N -> list N.

Abbreviation sanitize := (sanitize_namespace_name uni_isalnum uni_lower).
Abbreviation isalnum' := (isalnum uni_isalnum).
Abbreviation name_body := (name_body uni_isalnum uni_lower).
Abbreviation collapsed := (collapsed uni_isalnum uni_lower).

Lemma sanitize_prefix team_name :
  sanitize team_name = lit "team-" ++ name_body team_name.
Proof. reflexivity. Qed.

Lemma name_body_unfold team_name :
  name_body team_name =
    let stripped := strip [hyphen] (collapsed team_name) in
    if (63 <? length stripped)%nat
    then rstrip [hyphen] (take 63 stripped) else stripped.
Proof. reflexivity. Qed.

Lemma name_body_length team_name : (length (name_body team_name) <= 63)%nat.
Proof.
  rewrite name_body_unfold. cbv zeta.
  destruct (Nat.ltb_spec 63 (length (strip [hyphen] (collapsed team_name))))
    as [Hlt|Hle]; [|done].
  etrans; [apply rstrip_length|]. rewrite length_take. lia.
Qed.

Lemma sanitize_length team_name :
  (5 <= length (sanitize team_name) <= 68)%nat.
Proof.
  rewrite sanitize_prefix, length_app.
  pose proof (name_body_length team_name). simpl. lia.
Qed.

Lemma name_body_chars team_name c :
  c ∈ name_body team_name ->
  c = hyphen \/ (c ∈ lower uni_lower team_name /\ isalnum' c = true).
Proof.
  rewrite name_body_unfold. cbv zeta.
  assert (Hj : Forall (fun c => c = hyphen \/
                         (c ∈ lower uni_lower team_name /\ isalnum' c = true))
                 (collapsed team_name)).
  { apply join_Forall; [repeat constructor; by left|].
    apply filter_Forall, split_Forall, Forall_forall.
    intros x [y [-> Hy']]%list_elem_of_fmap.
    destruct (isalnum' y) eqn:Hy; auto. }
  rewrite Forall_forall in Hj.
  intros Hc. apply Hj.
  destruct (63 <? _)%nat.
  - apply rstrip_elem_of in Hc. apply elem_of_take in Hc as (i & Hc & _).
    apply list_elem_of_lookup_2 in Hc. by eapply strip_elem_of.
  - by eapply strip_elem_of.
Qed.

Lemma name_body_last team_name c :
  last (name_body team_name) = Some c -> c <> hyphen.
Proof.
  rewrite name_body_unfold. cbv zeta. intros Hl.
  assert (in_chars [hyphen] c = false) as Hc.
  { destruct (63 <? _)%nat; [by eapply rstrip_last|]. by eapply rstrip_last. }
  intros ->. done.
Qed.

Lemma name_body_head team_name c :
  head (name_body team_name) = Some c -> c <> hyphen.
Proof.
  rewrite name_body_unfold. cbv zeta. intros Hh.
  assert (head (lstrip [hyphen] (collapsed team_name)) = Some c) as Hc.
  { destruct (63 <? _)%nat.
    - eapply prefix_head; [|exact Hh].
      etrans; [apply rstrip_prefix|]. etrans; [apply prefix_take|].
      apply rstrip_prefix.
    - eapply prefix_head; [|exact Hh]. apply rstrip_prefix. }
  apply lstrip_head in Hc. intros ->. done.
Qed.

(** A sanitized name begins with a letter, and ends with an alphanumeric
    character unless nothing follows the prefix. *)
Lemma sanitize_head team_name : head (sanitize team_name) = Some 116.
Proof. reflexivity. Qed.

Lemma sanitize_last team_name :
  match last (sanitize team_name) with
  | Some c => if bool_decide (name_body team_name = [])
              then c = hyphen else isalnum' c = true
  | None => False
  end.
Proof.
  rewrite sanitize_prefix, last_app.
  destruct (last (name_body team_name)) as [c|] eqn:Hl.
  - rewrite bool_decide_eq_false_2
      by (intros He; rewrite He in Hl; discriminate).
    destruct (name_body_chars team_name c) as [->|[_ Hc]]; [|by exfalso; eapply name_body_last|done].
    by eapply last_Some_elem_of.
  - apply last_None in Hl. by rewrite bool_decide_eq_true_2.
Qed.

(** Nothing follows the prefix exactly when the lowered team name has no
    alphanumeric character. *)
Lemma isalnum_hyphen : isalnum' hyphen = false.
Proof. reflexivity. Qed.

Lemma name_body_nil team_name :
  name_body team_name = [] <->
  forall c, c ∈ lower uni_lower team_name -> isalnum' c = false.
Proof.
  rewrite name_body_unfold. cbv zeta. split.
  - intros Hnil c Hc. destruct (isalnum' c) eqn:Halnum; [exfalso|done].
    assert (Hne : c <> hyphen) by (intros ->; by rewrite isalnum_hyphen in Halnum).
    assert (Hin : c ∈ collapsed team_name).
    { destruct (split_elem_of hyphen
                  (map (fun c => if isalnum' c then c else hyphen)
                     (lower uni_lower team_name)) c) as (seg & Hseg & Hcs).
      - apply list_elem_of_fmap. exists c. by rewrite Halnum.
      - done.
      - eapply join_elem_of; [|exact Hcs].
        apply list_elem_of_In, filter_In. split; [by apply list_elem_of_In|].
        destruct seg; [by apply elem_of_nil in Hcs | done]. }
    assert (Hc' : in_chars [hyphen] c = false).
    { simpl. rewrite orb_false_r. by apply N.eqb_neq. }
    destruct (lstrip [hyphen] (collapsed team_name)) as [|h l] eqn:Hl.
    { apply lstrip_nil in Hl. rewrite Forall_forall in Hl.
      specialize (Hl c Hin). congruence. }
    assert (Hh : in_chars [hyphen] h = false)
      by (apply (lstrip_head [hyphen] (collapsed team_name)); by rewrite Hl).
    assert (Hs : head (strip [hyphen] (collapsed team_name)) = Some h).
    { unfold strip. rewrite Hl. by apply rstrip_head. }
    destruct (63 <? _)%nat.
    + assert (head (rstrip [hyphen] (take 63 (strip [hyphen] (collapsed team_name))))
              = Some h) as Hhead.
      { apply rstrip_head; [|done].
        by destruct (strip [hyphen] (collapsed team_name)). }
      by rewrite Hnil in Hhead.
    + by rewrite Hnil in Hs.
  - intros Hnone.
    assert (Hcol : collapsed team_name = []).
    { unfold collapsed. rewrite split_all_sep; [done|].
      apply Forall_forall. intros x (y & -> & Hy)%list_elem_of_fmap.
      by rewrite (Hnone y Hy). }
    by rewrite Hcol.
Qed.

Lemma ascii_lower_spec c :
  is_ascii c = true ->
  is_ascii (ascii_lower c) = true /\ is_ascii_upper (ascii_lower c) = false.
Proof.
  unfold ascii_lower, is_ascii, is_ascii_upper. intros Hc%N.ltb_lt.
  destruct (N.leb_spec 65 c), (N.leb_spec c 90); simpl;
    rewrite N.ltb_lt, andb_false_iff, !N.leb_gt; lia.
Qed.

(** On an ASCII team name the sanitized name is made of lowercase ASCII
    letters, digits and hyphens only. *)
Lemma sanitize_ascii team_name c :
  forallb is_ascii team_name = true ->
  c ∈ sanitize team_name ->
  c = hyphen \/ is_ascii_digit c = true \/ is_ascii_lower c = true.
Proof.
  intros Hascii. rewrite sanitize_prefix, elem_of_app.
  intros [Hc|Hc].
  - unfold lit in Hc. simpl in Hc. set_unfold.
    destruct Hc as [->|[->|[->|[->|[->|[]]]]]]; auto.
  - apply name_body_chars in Hc as [->|[Hin Hc]]; [by left|right].
    unfold lower in Hin. rewrite Hascii in Hin.
    apply list_elem_of_fmap in Hin as (y & -> & Hy).
    rewrite forallb_forall in Hascii.
    destruct (ascii_lower_spec y) as [Ha Hu].
    { apply Hascii. by apply list_elem_of_In. }
    unfold isalnum in Hc. rewrite Ha in Hc. unfold ascii_isalnum in Hc.
    rewrite Hu, orb_false_r in Hc. by apply orb_true_iff.
Qed.

End Sanitizer.

(** *** C2: the sanitizer against the naming grammar *)

(** C2 (the code departs from it).  The claim is that every sanitized
    name has at most 63 characters and ends with an alphanumeric
    character.  The code cuts the name to 63 characters before it adds
    the 5 characters of the prefix, and adds the prefix to an empty name
    too: a team name of 64 letters gives a name of 68 characters, and the
    empty team name gives ["team-"], which ends with a hyphen. *)
Theorem sanitize_breaks_naming_grammar uni_isalnum uni_lower :
  length (sanitize_namespace_name uni_isalnum uni_lower (repeat 97 64)) = 68%nat
  /\ sanitize_namespace_name uni_isalnum uni_lower [] = lit "team-"
  /\ last (sanitize_namespace_name uni_isalnum uni_lower []) = Some hyphen.
Proof. repeat split; vm_compute; reflexivity. Qed.

(** ** One cycle *)

Ltac unfold_monad :=
  unfold set_team_namespace, del_team_namespace, set_known_teams,
    getitem, bind, ret, raise, get, put, emit in *.

Section Cycle.

Variable uni_isalnum : N -> bool.
Variable uni_lower : list N -> list N.

Abbreviation sanitize := (sanitize_namespace_name uni_isalnum uni_lower).
Abbreviation reconcile := (reconcile_teams uni_isalnum uni_lower).
Abbreviation handle_new := (handle_new_team uni_isalnum uni_lower).
Abbreviation created := (create_outcome_for uni_isalnum uni_lower).

(** *** The wrappers of the two cluster calls *)

Lemma create_namespace_eq k8s team_id team_name namespace_name st :
  create_namespace k8s team_id team_name namespace_name st =
    (inl (match create_outcome_of
                  (create_response k8s team_id team_name namespace_name) with
          | CreateFailed => false
          | _ => true
          end),
     st, [CreateNamespace team_id team_name namespace_name]).
Proof.
  unfold create_namespace, create_outcome_of. unfold_monad.
  destruct (create_response _ _ _ _) as [|status|]; [done| |done].
  by destruct (status =? 409)%Z.
Qed.

Lemma delete_namespace_eq k8s namespace_name team_name st :
  delete_namespace k8s namespace_name team_name st =
    (inl (match delete_outcome_of
                  (delete_response k8s namespace_name team_name) with
          | DeleteFailed => false
          | _ => true
          end),
     st, [DeleteNamespace namespace_name team_name]).
Proof.
  unfold delete_namespace, delete_outcome_of. unfold_monad.
  destruct (delete_response _ _ _) as [|status|]; [done| |done].
  by destruct (status =? 404)%Z.
Qed.

(** *** The bodies of the two loops *)

Lemma handle_new_team_eq k8s current_teams team_id st :
  handle_new k8s current_teams team_id st =
    match current_teams !! team_id with
    | None => (inr (KeyError team_id), st, [])
    | Some t =>
        match t !! lit "name" with
        | None => (inr (KeyError (lit "name")), st, [])
        | Some team_name =>
            (inl tt,
             match created k8s team_id team_name with
             | CreateFailed => st
             | _ => {| known_teams := known_teams st;
                       team_namespaces :=
                         <[team_id := sanitize team_name]> (team_namespaces st) |}
             end,
             [CreateNamespace team_id team_name (sanitize team_name)])
        end
    end.
Proof.
  unfold handle_new_team, getitem, bind at 1.
  destruct (current_teams !! team_id) as [t|]; [|done].
  unfold ret at 1, bind at 1.
  destruct (t !! lit "name") as [team_name|]; [|done].
  unfold ret at 1, bind. rewrite create_namespace_eq.
  unfold create_outcome_for.
  by destruct (create_outcome_of _).
Qed.

Lemma handle_deleted_team_eq k8s team_id st :
  handle_deleted_team k8s team_id st =
    match team_namespaces st !! team_id with
    | None => (inl tt, st, [])
    | Some namespace_name =>
        (inl tt,
         match delete_outcome_for k8s team_id namespace_name with
         | DeleteFailed => st
         | _ => {| known_teams := known_teams st;
                   team_namespaces := delete team_id (team_namespaces st) |}
         end,
         [DeleteNamespace namespace_name (lit "team-" ++ team_id)])
    end.
Proof.
  unfold handle_deleted_team, bind at 1, get at 1.
  destruct (team_namespaces st !! team_id) as [namespace_name|] eqn:Hns; [|done].
  unfold bind. rewrite delete_namespace_eq. unfold delete_outcome_for.
  destruct (delete_outcome_of _); unfold_monad; by rewrite ?Hns.
Qed.

(** *** The dictionary of the fetched teams *)

Lemma teams_by_id_spec teams acc st :
  teams_by_id teams acc st =
    (if bool_decide (Forall (fun t : team => is_Some (t !! lit "id")) teams)
     then inl (foldl add_team acc teams)
     else inr (KeyError (lit "id")),
     st, []).
Proof.
  revert acc. induction teams as [|t teams IH]; intros acc; simpl; [done|].
  unfold bind, getitem, add_team.
  destruct (t !! lit "id") as [team_id|] eqn:Hid; simpl.
  - rewrite IH.
    rewrite (bool_decide_ext
               (Forall (fun t : team => is_Some (t !! lit "id")) (t :: teams))
               (Forall (fun t : team => is_Some (t !! lit "id")) teams)); [done|].
    rewrite Forall_cons, Hid. naive_solver.
  - rewrite bool_decide_eq_false_2; [done|].
    rewrite Forall_cons, Hid. intros [[? [=]] _].
Qed.

Lemma dom_foldl_add_team teams acc :
  dom (foldl add_team acc teams) = dom acc ∪ team_ids teams.
Proof.
  revert acc. induction teams as [|t teams IH]; intros acc; simpl.
  - unfold team_ids. simpl. set_solver.
  - rewrite IH. unfold add_team, team_ids. simpl.
    destruct (t !! lit "id") as [team_id|]; simpl.
    + rewrite dom_insert_L. set_solver.
    + done.
Qed.

Lemma dom_current_teams_of teams :
  dom (current_teams_of teams) = team_ids teams.
Proof.
  unfold current_teams_of. rewrite dom_foldl_add_team, dom_empty_L.
  apply (left_id_L ∅ (∪)).
Qed.

Lemma foldl_add_team_lookup teams acc team_id t :
  foldl add_team acc teams !! team_id = Some t ->
  acc !! team_id = Some t \/ (t ∈ teams /\ t !! lit "id" = Some team_id).
Proof.
  revert acc. induction teams as [|t' teams IH]; intros acc; simpl; [by left|].
  intros [Hacc|[Hin Hid]]%IH.
  - unfold add_team in Hacc.
    destruct (t' !! lit "id") as [i|] eqn:Hi; [|by left].
    destruct (decide (i = team_id)) as [->|Hne].
    + rewrite lookup_insert_eq in Hacc. injection Hacc as ->.
      right. split; [left | done].
    + rewrite lookup_insert_ne in Hacc by done. by left.
  - right. split; [by right | done].
Qed.

Lemma current_teams_of_lookup teams team_id t :
  current_teams_of teams !! team_id = Some t ->
  t ∈ teams /\ t !! lit "id" = Some team_id.
Proof.
  intros [Hemp|?]%foldl_add_team_lookup; [|done].
  by rewrite lookup_empty in Hemp.
Qed.

Lemma desired_name_Some teams team_id team_name :
  desired_name teams team_id = Some team_name ->
  exists t, t ∈ teams /\ t !! lit "id" = Some team_id
            /\ t !! lit "name" = Some team_name.
Proof.
  unfold desired_name.
  destruct (current_teams_of teams !! team_id) as [t|] eqn:Ht; [|done].
  intros Hn. exists t. apply current_teams_of_lookup in Ht. naive_solver.
Qed.

Lemma desired_name_well_formed teams team_id :
  Forall well_formed teams -> team_id ∈ team_ids teams ->
  is_Some (desired_name teams team_id).
Proof.
  intros Hwf Hin. rewrite <-dom_current_teams_of in Hin.
  apply elem_of_dom in Hin as [t Ht]. unfold desired_name. rewrite Ht.
  apply current_teams_of_lookup in Ht as [Ht _].
  rewrite Forall_forall in Hwf. by apply Hwf.
Qed.

(** *** The loop over the new teams *)

Lemma create_loop_spec k8s current_teams ids st :
  NoDup ids ->
  exists r st' tr,
    for_each ids (handle_new k8s current_teams) st = (r, st', tr)
    /\ known_teams st' = known_teams st
    /\ (forall team_id, team_id ∉ ids ->
          team_namespaces st' !! team_id = team_namespaces st !! team_id)
    /\ (forall ev, ev ∈ tr -> exists team_id t team_name,
          team_id ∈ ids /\ current_teams !! team_id = Some t
          /\ t !! lit "name" = Some team_name
          /\ ev = CreateNamespace team_id team_name (sanitize team_name))
    /\ match r with
       | inl _ =>
           forall team_id, team_id ∈ ids -> exists t team_name,
             current_teams !! team_id = Some t
             /\ t !! lit "name" = Some team_name
             /\ CreateNamespace team_id team_name (sanitize team_name) ∈ tr
             /\ team_namespaces st' !! team_id =
                  match created k8s team_id team_name with
                  | CreateFailed => team_namespaces st !! team_id
                  | _ => Some (sanitize team_name)
                  end
       | inr _ =>
           exists team_id, team_id ∈ ids /\
             forall t, current_teams !! team_id = Some t -> t !! lit "name" = None
       end.
Proof.
  intros Hnd. revert st. induction Hnd as [|x ids Hx Hnd IH]; intros st; simpl.
  - exists (inl tt), st, []. repeat split; try done.
    + intros ev Hev. by apply elem_of_nil in Hev.
    + intros i Hi. by apply elem_of_nil in Hi.
  - unfold bind at 1. rewrite handle_new_team_eq.
    destruct (current_teams !! x) as [t|] eqn:Hcur.
    2: { exists (inr (KeyError x)), st, []. repeat split; try done.
         - intros ev Hev. by apply elem_of_nil in Hev.
         - exists x. split; [left | congruence]. }
    destruct (t !! lit "name") as [team_name|] eqn:Hname.
    2: { exists (inr (KeyError (lit "name"))), st, []. repeat split; try done.
         - intros ev Hev. by apply elem_of_nil in Hev.
         - exists x. split; [left | congruence]. }
    set (st1 := match created k8s x team_name with CreateFailed => st | _ => _ end).
    assert (Hk1 : known_teams st1 = known_teams st)
      by (subst st1; by destruct (created _ _ _)).
    assert (Hn1 : forall i, i <> x ->
              team_namespaces st1 !! i = team_namespaces st !! i).
    { intros i Hi. subst st1. destruct (created _ _ _); simpl;
        by rewrite ?lookup_insert_ne. }
    assert (Hx1 : team_namespaces st1 !! x =
              match created k8s x team_name with
              | CreateFailed => team_namespaces st !! x
              | _ => Some (sanitize team_name)
              end).
    { subst st1. destruct (created _ _ _); simpl; by rewrite ?lookup_insert_eq. }
    clearbody st1.
    destruct (IH st1) as (r & st' & tr & -> & Hk & Hout & Htr & Hr).
    exists r, st', (CreateNamespace x team_name (sanitize team_name) :: tr).
    split; [done|]. split; [congruence|]. split; [|split].
    + intros i Hi. rewrite not_elem_of_cons in Hi. destruct Hi as [Hix Hi].
      by rewrite Hout, Hn1.
    + intros ev [->|Hev]%elem_of_cons.
      * exists x, t, team_name. split; [left | done].
      * destruct (Htr ev Hev) as (i & t' & n' & Hi & ?). exists i, t', n'.
        split; [by right | done].
    + destruct r as [u|e].
      * intros i [->|Hi]%elem_of_cons.
        -- exists t, team_name. split; [done|]. split; [done|]. split; [left|].
           by rewrite Hout, Hx1.
        -- destruct (Hr i Hi) as (t' & n' & ? & ? & ? & Hns).
           exists t', n'. split; [done|]. split; [done|]. split; [by right|].
           rewrite Hns, Hn1; [done|]. by intros ->.
      * destruct Hr as (i & Hi & Hnone). exists i. split; [by right | done].
Qed.

(** *** The loop over the deleted teams *)

Lemma delete_loop_spec k8s ids st :
  NoDup ids ->
  exists st' tr,
    for_each ids (handle_deleted_team k8s) st = (inl tt, st', tr)
    /\ known_teams st' = known_teams st
    /\ (forall team_id,
          team_namespaces st' !! team_id =
            match team_namespaces st !! team_id with
            | Some namespace_name =>
                if bool_decide (team_id ∈ ids) then
                  match delete_outcome_for k8s team_id namespace_name with
                  | DeleteFailed => Some namespace_name
                  | _ => None
                  end
                else Some namespace_name
            | None => None
            end)
    /\ (forall ev, ev ∈ tr <-> exists team_id namespace_name,
          team_id ∈ ids /\ team_namespaces st !! team_id = Some namespace_name
          /\ ev = DeleteNamespace namespace_name (lit "team-" ++ team_id)).
Proof.
  intros Hnd. revert st. induction Hnd as [|x ids Hx Hnd IH]; intros st; simpl.
  - exists st, []. repeat split; try done.
    + intros i. by destruct (team_namespaces st !! i).
    + intros Hev. by apply elem_of_nil in Hev.
    + intros (i & n & Hi & _). by apply elem_of_nil in Hi.
  - unfold bind at 1. rewrite handle_deleted_team_eq.
    set (step := match team_namespaces st !! x with None => _ | Some _ => _ end).
    assert (exists st1 tr1, step = (inl tt, st1, tr1)
              /\ known_teams st1 = known_teams st
              /\ (forall i, i <> x ->
                    team_namespaces st1 !! i = team_namespaces st !! i)
              /\ team_namespaces st1 !! x =
                   match team_namespaces st !! x with
                   | Some n => match delete_outcome_for k8s x n with
                               | DeleteFailed => Some n
                               | _ => None
                               end
                   | None => None
                   end
              /\ tr1 = match team_namespaces st !! x with
                       | Some n => [DeleteNamespace n (lit "team-" ++ x)]
                       | None => []
                       end)
      as (st1 & tr1 & -> & Hk1 & Hn1 & Hx1 & Htr1).
    { subst step. destruct (team_namespaces st !! x) as [n|] eqn:Hns.
      - eexists _, _. split; [done|].
        destruct (delete_outcome_for k8s x n); simpl;
          repeat split; try done; intros; by rewrite ?lookup_delete_eq, ?lookup_delete_ne.
      - by eexists _, _. }
    destruct (IH st1) as (st' & tr & -> & Hk & Hns & Htr).
    exists st', (tr1 ++ tr). split; [done|]. split; [congruence|]. split.
    + intros i. rewrite Hns. destruct (decide (i = x)) as [->|Hix].
      * rewrite Hx1. rewrite (bool_decide_eq_false_2 (x ∈ ids)) by done.
        rewrite (bool_decide_eq_true_2 (x ∈ x :: ids)) by left.
        destruct (team_namespaces st !! x) as [n|]; [|done].
        by destruct (delete_outcome_for k8s x n).
      * rewrite Hn1 by done. destruct (team_namespaces st !! i) as [n|]; [|done].
        destruct (decide (i ∈ ids)).
        -- rewrite !bool_decide_eq_true_2; [done| by right | done].
        -- rewrite !bool_decide_eq_false_2; [done| |done].
           rewrite not_elem_of_cons. done.
    + intros ev. rewrite elem_of_app, Htr. split.
      * intros [Hev|(i & n & Hi & Hn & ->)].
        -- destruct (team_namespaces st !! x) as [n|] eqn:Hnx; subst tr1.
           ++ apply list_elem_of_singleton in Hev as ->. exists x, n.
              split; [left | done].
           ++ by apply elem_of_nil in Hev.
        -- exists i, n. split; [by right|]. split; [|done].
           rewrite <-Hn1; [done|]. by intros ->.
      * intros (i & n & [->|Hi]%elem_of_cons & Hn & ->).
        -- left. rewrite Htr1, Hn. left.
        -- right. exists i, n. split; [done|]. split; [|done].
           rewrite Hn1; [done|]. by intros ->.
Qed.

(** *** The order of the loops

    Python leaves the order in which a [for] loop visits a set open.  The
    state that a loop leaves does not depend on it. *)




(** *** The whole cycle *)

Lemma reconcile_spec h k8s st r st' tr :
  reconcile h k8s st = (r, st', tr) ->
  let D := team_ids (fetch_teams h) in
  let K := known_teams st in
  (forall ev, ev ∈ tr -> cycle_event uni_isalnum uni_lower h st ev)
  /\ (forall team_id, team_id ∉ D ∖ K ->
        team_namespaces st' !! team_id = team_namespaces st !! team_id
        \/ (team_id ∈ K ∖ D /\ is_Some (team_namespaces st !! team_id)))
  /\ match r with
     | inr e =>
         known_teams st' = K
         /\ ((exists t, t ∈ fetch_teams h /\ t !! lit "id" = None)
             \/ (exists team_id, team_id ∈ D ∖ K
                   /\ desired_name (fetch_teams h) team_id = None))
     | inl _ =>
         known_teams st' = D
         /\ (forall team_id, team_id ∈ D ∖ K -> exists team_name,
               desired_name (fetch_teams h) team_id = Some team_name
               /\ CreateNamespace team_id team_name (sanitize team_name) ∈ tr
               /\ team_namespaces st' !! team_id =
                    match created k8s team_id team_name with
                    | CreateFailed => team_namespaces st !! team_id
                    | _ => Some (sanitize team_name)
                    end)
         /\ (forall team_id, team_id ∈ K ∖ D ->
               team_namespaces st' !! team_id =
                 match team_namespaces st !! team_id with
                 | Some namespace_name =>
                     match delete_outcome_for k8s team_id namespace_name with
                     | DeleteFailed => Some namespace_name
                     | _ => None
                     end
                 | None => None
                 end)
         /\ (forall team_id namespace_name, team_id ∈ K ∖ D ->
               team_namespaces st !! team_id = Some namespace_name ->
               DeleteNamespace namespace_name (lit "team-" ++ team_id) ∈ tr)
         /\ (forall team_id, team_id ∉ D ∖ K -> team_id ∉ K ∖ D ->
               team_namespaces st' !! team_id = team_namespaces st !! team_id)
     end.
Proof.
  intros Hrun D K. unfold reconcile_teams in Hrun.
  unfold bind at 1 in Hrun. rewrite teams_by_id_spec in Hrun.
  fold (current_teams_of (fetch_teams h)) in Hrun.
  case_bool_decide as Hids.
  2: { injection Hrun as <- <- <-. split; [|split; [by left|]].
       - intros ev Hev. by apply elem_of_nil in Hev.
       - split; [done|]. left. apply not_Forall_Exists in Hids; [|apply _].
         apply Exists_exists in Hids as (t & Ht & Hnone).
         exists t. split; [done|]. by apply eq_None_not_Some. }
  set (current_teams := current_teams_of (fetch_teams h)) in *.
  assert (Hdom : dom current_teams = D) by apply dom_current_teams_of.
  unfold bind at 1, get at 1 in Hrun. unfold bind at 1 in Hrun.
  unfold new_teams, deleted_teams in Hrun. rewrite Hdom in Hrun. fold K in Hrun.
  destruct (create_loop_spec k8s current_teams (elements (D ∖ K)) st)
    as (r1 & st1 & tr1 & Hloop1 & Hk1 & Hout1 & Htr1 & Hr1);
    [apply NoDup_elements|].
  rewrite Hloop1 in Hrun.
  assert (Hev1 : forall ev, ev ∈ tr1 -> cycle_event uni_isalnum uni_lower h st ev).
  { intros ev Hev. destruct (Htr1 ev Hev) as (i & t & n & Hi & Ht & Hn & ->).
    apply elem_of_elements in Hi. simpl. split; [done|]. split; [|done].
    unfold desired_name. fold current_teams. by rewrite Ht. }
  destruct r1 as [[]|e].
  2: { injection Hrun as <- <- <-. split; [done|]. split.
       - intros i Hi. left. apply Hout1. by rewrite elem_of_elements.
       - split; [done|]. right. destruct Hr1 as (i & Hi & Hnone).
         exists i. split; [by apply elem_of_elements|].
         unfold desired_name. fold current_teams.
         destruct (current_teams !! i) as [t|] eqn:Ht; [by apply Hnone | done]. }
  unfold bind at 1, get at 1 in Hrun. unfold bind at 1 in Hrun.
  rewrite Hk1 in Hrun. fold K in Hrun.
  destruct (delete_loop_spec k8s (elements (K ∖ D)) st1)
    as (st2 & tr2 & Hloop2 & Hk2 & Hns2 & Htr2); [apply NoDup_elements|].
  rewrite Hloop2 in Hrun.
  assert (Hold : forall i, i ∈ K ∖ D ->
            team_namespaces st1 !! i = team_namespaces st !! i).
  { intros i Hi. apply Hout1. rewrite elem_of_elements. set_solver. }
  assert (Hev2 : forall ev, ev ∈ tr2 -> cycle_event uni_isalnum uni_lower h st ev).
  { intros ev Hev. apply Htr2 in Hev as (i & n & Hi & Hn & ->).
    apply elem_of_elements in Hi. simpl. exists i.
    split; [done|]. split; [done|]. by rewrite <-Hold. }
  set (summary := if bool_decide (D ∖ K ≠ ∅) || bool_decide (K ∖ D ≠ ∅)
                  then _ else _) in Hrun.
  unfold bind at 1 in Hrun.
  assert (Hknown : set_known_teams D st2 =
            (inl tt, {| known_teams := D; team_namespaces := team_namespaces st2 |}, []))
    by done.
  rewrite Hknown in Hrun. clear Hknown.
  assert (exists tr3, summary {| known_teams := D; team_namespaces := team_namespaces st2 |}
            = (inl tt, {| known_teams := D; team_namespaces := team_namespaces st2 |}, tr3)
            /\ forall ev, ev ∈ tr3 -> cycle_event uni_isalnum uni_lower h st ev)
    as (tr3 & Hsum & Hev3).
  { subst summary. destruct (_ || _) eqn:Hdiff.
    - eexists. split; [done|]. intros ev ->%list_elem_of_singleton. simpl.
      apply orb_true_iff in Hdiff as [?%bool_decide_eq_true|?%bool_decide_eq_true]; auto.
    - exists []. split; [done|]. intros ev Hev. by apply elem_of_nil in Hev. }
  rewrite Hsum in Hrun. injection Hrun as <- <- <-. simpl.
  assert (Hfinal : forall i, team_namespaces st2 !! i =
            match team_namespaces st1 !! i with
            | Some n =>
                if bool_decide (i ∈ K ∖ D) then
                  match delete_outcome_for k8s i n with
                  | DeleteFailed => Some n
                  | _ => None
                  end
                else Some n
            | None => None
            end).
  { intros i. rewrite Hns2. destruct (team_namespaces st1 !! i); [|done].
    by rewrite (bool_decide_ext _ _ (elem_of_elements (K ∖ D) i)). }
  split; [|split; [|split; [|split; [|split; [|split]]]]].
  - intros ev. rewrite !elem_of_app. intros [?|[?|?]]; auto.
  - intros i Hi. rewrite Hfinal.
    rewrite Hout1 by (by rewrite elem_of_elements).
    destruct (team_namespaces st !! i) as [n|] eqn:Hn; [|by left].
    case_bool_decide; [|by left]. right. split; [done | by eexists].
  - done.
  - intros i Hi. destruct (Hr1 i) as (t & n & Ht & Hn & Hin & Hns);
      [by apply elem_of_elements|].
    exists n. split; [unfold desired_name; fold current_teams; by rewrite Ht|].
    split; [rewrite elem_of_app; by left|].
    rewrite Hfinal, Hns.
    rewrite (bool_decide_eq_false_2 (i ∈ K ∖ D)) by set_solver.
    destruct (created k8s i n); [done|done|].
    by destruct (team_namespaces st !! i).
  - intros i Hi. rewrite Hfinal, Hold by done.
    by rewrite (bool_decide_eq_true_2 (i ∈ K ∖ D)).
  - intros i n Hi Hn. rewrite !elem_of_app. right; left. apply Htr2.
    exists i, n. split; [by apply elem_of_elements|]. split; [|done].
    by rewrite Hold.
  - intros i Hi1 Hi2. rewrite Hfinal.
    rewrite Hout1 by (by rewrite elem_of_elements).
    rewrite (bool_decide_eq_false_2 (i ∈ K ∖ D)) by done.
    by destruct (team_namespaces st !! i).
Qed.

(** *** C10: what [known_teams] holds after a cycle *)

(** C10.  After every cycle that runs to completion, [known_teams] is
    exactly the set of the ids in the list that the cycle fetched,
    whatever the creates and deletes of the cycle answered. *)
Theorem known_teams_after_cycle h k8s st u st' tr :
  reconcile h k8s st = (inl u, st', tr) ->
  known_teams st' = team_ids (fetch_teams h).
Proof. intros Hrun. by destruct (reconcile_spec _ _ _ _ _ _ Hrun) as (_ & _ & ? & _). Qed.

(** *** C6: the two differences *)

(** C6.  For every known set [K] and fetched set [D], the additions of a
    cycle are [D − K], its removals are [K − D], and the two are
    disjoint.  The calls of a cycle that completes show the two sets: a
    create is issued for exactly the ids of the additions, a delete for
    exactly the ids of the removals that have a namespace on record. *)
Theorem diff_correct (D K : gset str) :
  (forall team_id, team_id ∈ new_teams D K <-> team_id ∈ D /\ team_id ∉ K)
  /\ (forall team_id, team_id ∈ deleted_teams D K <-> team_id ∈ K /\ team_id ∉ D)
  /\ new_teams D K ∩ deleted_teams D K = ∅
  /\ forall h k8s st u st' tr,
       team_ids (fetch_teams h) = D -> known_teams st = K ->
       reconcile h k8s st = (inl u, st', tr) ->
       (forall team_id,
          (exists team_name namespace_name,
             CreateNamespace team_id team_name namespace_name ∈ tr)
          <-> team_id ∈ new_teams D K)
       /\ (forall team_id,
             (exists namespace_name,
                DeleteNamespace namespace_name (lit "team-" ++ team_id) ∈ tr)
             <-> team_id ∈ deleted_teams D K
                 /\ is_Some (team_namespaces st !! team_id)).
Proof.
  unfold new_teams, deleted_teams.
  split; [set_solver|]. split; [set_solver|]. split; [set_solver|].
  intros h k8s st u st' tr <- <- Hrun.
  destruct (reconcile_spec _ _ _ _ _ _ Hrun)
    as (Hev & _ & _ & Hnew & _ & Hdel & _).
  split; intros team_id; split.
  - intros (team_name & namespace_name & Hin). by destruct (Hev _ Hin).
  - intros Hin. destruct (Hnew _ Hin) as (team_name & _ & Hc & _). eauto.
  - intros (namespace_name & Hin).
    destruct (Hev _ Hin) as (i & Heq & Hi & Hns).
    apply app_inv_head in Heq as <-. eauto.
  - intros [Hin [namespace_name Hns]]. eauto.
Qed.

(** *** C8: the first cycle *)

(** C8.  From the empty state, a cycle that fetches the teams [teams],
    each with an id and a name, and whose creates all succeed, runs to
    completion, leaves in [known_teams] exactly the ids of [teams], and
    maps every such id to the sanitized name of its team. *)
Theorem cold_start_converges teams k8s :
  Forall well_formed teams ->
  (forall team_id team_name, created k8s team_id team_name <> CreateFailed) ->
  exists st' tr,
    reconcile (HttpResponse 200 (Some teams)) k8s init_state = (inl tt, st', tr)
    /\ known_teams st' = team_ids teams
    /\ forall team_id, team_id ∈ team_ids teams ->
         exists team_name,
           desired_name teams team_id = Some team_name
           /\ team_namespaces st' !! team_id = Some (sanitize team_name).
Proof.
  intros Hwf Hok.
  destruct (reconcile (HttpResponse 200 (Some teams)) k8s init_state)
    as [[r st'] tr] eqn:Hrun.
  destruct (reconcile_spec _ _ _ _ _ _ Hrun) as (_ & _ & Hr). simpl in Hr.
  destruct r as [[]|e].
  - destruct Hr as (Hknown & Hnew & _). exists st', tr.
    split; [done|]. split; [done|]. intros team_id Hin.
    destruct (Hnew team_id) as (team_name & Hname & _ & Hns); [set_solver|].
    exists team_name. split; [done|]. rewrite Hns.
    specialize (Hok team_id team_name). by destruct (created _ _ _).
  - exfalso. destruct Hr as (_ & [(t & Ht & Hnone)|(team_id & Hin & Hnone)]).
    + rewrite Forall_forall in Hwf. destruct (Hwf t Ht) as [[? Hid] _].
      congruence.
    + destruct (desired_name_well_formed teams team_id Hwf) as [? Hsome];
        [set_solver | congruence].
Qed.

(** *** C1: a cycle whose fetch fails *)

Lemma fetch_failed_empty h : fetch_failed h = true -> fetch_teams h = [].
Proof.
  destruct h as [status [teams|]| |]; simpl; try done.
  - by intros ->%negb_true_iff.
  - by destruct (status =? 200)%Z.
Qed.

(** C1 (amended).  A failed fetch is answered with the empty list, and
    the cycle runs as on an empty registry: it completes, issues no
    create, empties [known_teams], and issues a delete for exactly the
    known ids that have a namespace on record, which it forgets unless
    the delete fails.  State and cluster are left alone only when no
    team was known before the cycle. *)
Theorem failed_fetch_cycle h k8s st :
  fetch_failed h = true ->
  exists st' tr,
    reconcile h k8s st = (inl tt, st', tr)
    /\ reconcile h k8s st = reconcile (HttpResponse 200 (Some [])) k8s st
    /\ known_teams st' = ∅
    /\ (forall team_id team_name namespace_name,
          CreateNamespace team_id team_name namespace_name ∉ tr)
    /\ (forall team_id namespace_name,
          DeleteNamespace namespace_name (lit "team-" ++ team_id) ∈ tr
          <-> team_id ∈ known_teams st
              /\ team_namespaces st !! team_id = Some namespace_name)
    /\ (forall team_id,
          team_namespaces st' !! team_id =
            match team_namespaces st !! team_id with
            | Some namespace_name =>
                if bool_decide (team_id ∈ known_teams st) then
                  match delete_outcome_for k8s team_id namespace_name with
                  | DeleteFailed => Some namespace_name
                  | _ => None
                  end
                else Some namespace_name
            | None => None
            end)
    /\ (known_teams st = ∅ -> st' = st /\ tr = []).
Proof.
  intros Hfetch%fetch_failed_empty.
  destruct (reconcile h k8s st) as [[r st'] tr] eqn:Hrun.
  destruct (reconcile_spec _ _ _ _ _ _ Hrun) as (Hev & _ & Hr).
  unfold cycle_event in Hev. rewrite Hfetch in Hev, Hr.
  change (team_ids []) with (∅ : gset str) in *. simpl in Hr.
  destruct r as [[]|e].
  2: { exfalso. destruct Hr as (_ & [(t & Ht & _)|(i & Hi & _)]).
       - by apply elem_of_nil in Ht.
       - set_solver. }
  destruct Hr as (Hknown & _ & Hdel & Hcall & Hsame).
  exists st', tr. split; [done|]. split.
  { rewrite <-Hrun. unfold reconcile_teams. by rewrite Hfetch. }
  split; [done|]. split; [|split; [|split]].
  - intros team_id team_name namespace_name Hin.
    destruct (Hev _ Hin) as [Hi _]. set_solver.
  - intros team_id namespace_name. split.
    + intros Hin. destruct (Hev _ Hin) as (i & Heq & Hi & Hns).
      apply app_inv_head in Heq as <-. set_solver.
    + intros [Hi Hns]. apply Hcall; [set_solver | done].
  - intros team_id. case_bool_decide as Hin.
    + apply Hdel. set_solver.
    + rewrite Hsame by set_solver. by destruct (team_namespaces st !! team_id).
  - intros Hempty. split.
    + destruct st as [K ns], st' as [K' ns']. simpl in *. f_equal.
      * congruence.
      * apply map_eq. intros i. apply Hsame; set_solver.
    + destruct tr as [|ev tr]; [done|]. exfalso.
      specialize (Hev ev (list_elem_of_here _ _)).
      destruct ev; simpl in Hev; [| | |done|done|done].
      * set_solver.
      * destruct Hev as (i & _ & Hi & _). set_solver.
      * set_solver.
Qed.

(** *** C3: a create that fails *)

(** C3 (amended).  When a cycle completes and the create it issued for a
    team id failed, the cycle leaves the namespace record of the id as it
    was, but the id is in [known_teams] after the cycle, as every fetched
    id is.  So when the next cycle fetches the id again, the id is not
    among the additions and no create is issued for it. *)
Theorem failed_create_not_retried h k8s st u st' tr team_id team_name :
  reconcile h k8s st = (inl u, st', tr) ->
  CreateNamespace team_id team_name (sanitize team_name) ∈ tr ->
  created k8s team_id team_name = CreateFailed ->
  team_namespaces st' !! team_id = team_namespaces st !! team_id
  /\ team_id ∈ known_teams st'
  /\ forall h2 k2,
       team_id ∈ team_ids (fetch_teams h2) ->
       (team_id ∉ new_teams (team_ids (fetch_teams h2)) (known_teams st'))
       /\ (forall team_name2 namespace_name2,
             CreateNamespace team_id team_name2 namespace_name2
               ∉ trace_of (reconcile h2 k2 st')).
Proof.
  intros Hrun Hcall Hfailed.
  destruct (reconcile_spec _ _ _ _ _ _ Hrun) as (Hev & _ & Hknown & Hnew & _).
  destruct (Hev _ Hcall) as (Hin & Hname & _).
  destruct (Hnew _ Hin) as (team_name' & Hname' & _ & Hns).
  assert (team_name' = team_name) as -> by congruence.
  rewrite Hfailed in Hns.
  assert (Hk : team_id ∈ known_teams st') by (rewrite Hknown; set_solver).
  split; [done|]. split; [done|]. intros h2 k2 Hin2. split.
  - unfold new_teams. set_solver.
  - intros team_name2 namespace_name2 Hcall2.
    destruct (reconcile h2 k2 st') as [[r2 st2] tr2] eqn:Hrun2.
    destruct (reconcile_spec _ _ _ _ _ _ Hrun2) as (Hev2 & _).
    destruct (Hev2 _ Hcall2) as (Hnew2 & _). set_solver.
Qed.

(** *** C4: a delete that fails *)

(** C4 (amended).  When a cycle completes and the delete it issued for a
    removed team id failed, the id keeps its entry in [team_namespaces],
    but it is no longer in [known_teams], which holds the fetched ids
    only.  So no later cycle that starts from this state has the id among
    its removals, and the next cycle issues no delete for it. *)
Theorem failed_delete_not_retried h k8s st u st' tr team_id namespace_name :
  reconcile h k8s st = (inl u, st', tr) ->
  team_id ∈ deleted_teams (team_ids (fetch_teams h)) (known_teams st) ->
  team_namespaces st !! team_id = Some namespace_name ->
  delete_outcome_for k8s team_id namespace_name = DeleteFailed ->
  DeleteNamespace namespace_name (lit "team-" ++ team_id) ∈ tr
  /\ team_namespaces st' !! team_id = Some namespace_name
  /\ (team_id ∉ known_teams st')
  /\ forall h2 k2,
       (team_id ∉ deleted_teams (team_ids (fetch_teams h2)) (known_teams st'))
       /\ (forall namespace_name2,
             DeleteNamespace namespace_name2 (lit "team-" ++ team_id)
               ∉ trace_of (reconcile h2 k2 st')).
Proof.
  unfold deleted_teams. intros Hrun Hin Hns Hfailed.
  destruct (reconcile_spec _ _ _ _ _ _ Hrun)
    as (_ & _ & Hknown & _ & Hdel & Hcall & _).
  assert (Hk : team_id ∉ known_teams st') by (rewrite Hknown; set_solver).
  split; [by apply Hcall|]. split; [by rewrite Hdel, Hns, Hfailed|].
  split; [done|]. intros h2 k2. split; [set_solver|].
  intros namespace_name2 Hcall2.
  destruct (reconcile h2 k2 st') as [[r2 st2] tr2] eqn:Hrun2.
  destruct (reconcile_spec _ _ _ _ _ _ Hrun2) as (Hev2 & _).
  destruct (Hev2 _ Hcall2) as (i & Heq & Hi & _).
  apply app_inv_head in Heq as <-. set_solver.
Qed.

(** *** C5: the keys of [team_namespaces] *)

Lemma cycle_keeps_namespaces_known h k8s st u st' tr :
  (forall team_id namespace_name,
     delete_outcome_for k8s team_id namespace_name <> DeleteFailed) ->
  dom (team_namespaces st) ⊆ known_teams st ->
  reconcile h k8s st = (inl u, st', tr) ->
  dom (team_namespaces st') ⊆ known_teams st'.
Proof.
  intros Hok Hinv Hrun.
  destruct (reconcile_spec _ _ _ _ _ _ Hrun)
    as (_ & _ & Hknown & _ & Hdel & _ & Hsame).
  intros i [n Hi]%elem_of_dom. rewrite Hknown.
  destruct (decide (i ∈ team_ids (fetch_teams h))) as [|Hout]; [done|].
  exfalso. destruct (decide (i ∈ known_teams st)) as [Hk|Hk].
  - rewrite Hdel in Hi by set_solver.
    destruct (team_namespaces st !! i) as [n'|]; [|done].
    specialize (Hok i n'). by destruct (delete_outcome_for k8s i n').
  - rewrite Hsame in Hi by set_solver.
    apply Hk, Hinv, elem_of_dom. by exists n.
Qed.

(** C5 (amended).  After every sequence of cycles from the empty state
    that all run to completion and in which no delete fails, the keys of
    [team_namespaces] are a subset of [known_teams]. *)
Theorem namespaces_subset_known cycles st :
  Forall (fun c : http_outcome * cluster =>
            forall team_id namespace_name,
              delete_outcome_for c.2 team_id namespace_name <> DeleteFailed)
    cycles ->
  run_cycles uni_isalnum uni_lower cycles init_state = Some st ->
  dom (team_namespaces st) ⊆ known_teams st.
Proof.
  intros Hok.
  assert (Hinit : dom (team_namespaces init_state) ⊆ known_teams init_state)
    by (simpl; set_solver).
  revert Hinit. generalize init_state.
  induction Hok as [|[h k8s] cycles Hc Hcs IH]; intros st0 Hinv; simpl.
  - by intros [= <-].
  - destruct (reconcile h k8s st0) as [[[u|e] st1] tr1] eqn:Hrun; [|done].
    apply IH. by eapply cycle_keeps_namespaces_known.
Qed.

(** *** C7: creating twice *)

(** C7.  Running the create path for a team twice, the second create
    answering that the namespace exists already, leaves the same state as
    running it once with a create that succeeds, and so the same state as
    the first run alone when that one succeeded: the conflict counts as a
    success and the namespace is recorded again under the same name. *)
Theorem create_twice_same_state k1 k2 k8s current_teams team_id t team_name st :
  current_teams !! team_id = Some t ->
  t !! lit "name" = Some team_name ->
  created k2 team_id team_name = AlreadyExists ->
  created k8s team_id team_name <> CreateFailed ->
  result_of ((handle_new k1 current_teams team_id ;;
              handle_new k2 current_teams team_id) st) = inl tt
  /\ final_state ((handle_new k1 current_teams team_id ;;
                   handle_new k2 current_teams team_id) st)
     = final_state (handle_new k8s current_teams team_id st).
Proof.
  intros Ht Hname Hsecond Honce. unfold bind.
  rewrite !handle_new_team_eq, Ht, Hname. rewrite handle_new_team_eq, Ht, Hname.
  rewrite Hsecond. unfold result_of, final_state. simpl.
  split; [done|].
  destruct (created k8s team_id team_name); [| |done];
    destruct (created k1 team_id team_name); simpl;
    by rewrite ?insert_insert_eq.
Qed.

(** *** C9: errors in the main loop *)

Lemma main_loop_never_crashes poll_interval turns st e :
  (main_loop uni_isalnum uni_lower poll_interval turns st).1.1 <> Crashed e.
Proof.
  revert st. induction turns as [|[h k8s|] turns IH]; intros st; simpl; [done| |done].
  destruct (reconcile h k8s st) as [[[u|e'] st1] tr1];
    specialize (IH st1);
    by destruct (main_loop _ _ _ _ st1) as [[s st2] tr2].
Qed.

(** C9 (amended).  An error raised by a cycle that the loop runs, that is
    by any cycle but the one at startup, does not end the loop: the error
    is logged, the loop sleeps one poll interval in the handler and one
    more at the top of the next turn, and then runs the next cycle from
    the state in which the failed cycle left off. *)
Theorem loop_survives_cycle_error poll_interval h k8s turns st e st1 tr1 :
  reconcile h k8s st = (inr e, st1, tr1) ->
  exists s st2 tr2,
    main_loop uni_isalnum uni_lower poll_interval (Poll h k8s :: turns) st
      = (s, st2,
         Sleep poll_interval :: tr1
           ++ LogError e :: Sleep poll_interval :: tr2)
    /\ main_loop uni_isalnum uni_lower poll_interval turns st1 = (s, st2, tr2)
    /\ (forall e', s <> Crashed e')
    /\ forall h' k' turns', turns = Poll h' k' :: turns' ->
         exists tr3,
           tr2 = Sleep poll_interval :: trace_of (reconcile h' k' st1) ++ tr3.
Proof.
  intros Hrun. simpl. rewrite Hrun.
  pose proof (main_loop_never_crashes poll_interval turns st1) as Hs.
  destruct (main_loop _ _ _ turns st1) as [[s st2] tr2] eqn:Hloop.
  exists s, st2, tr2. split; [done|]. split; [done|]. split; [done|].
  intros h' k' turns' ->. simpl in Hloop.
  destruct (reconcile h' k' st1) as [[[u|e'] st3] tr3];
    destruct (main_loop _ _ _ turns' st3) as [[s' st4] tr4];
    injection Hloop as <- <- <-; eauto.
Qed.

End Cycle.

(** * The claims on sample runs *)

Import Sample.

Abbreviation reconcile0 := (reconcile_teams no_isalnum no_lower).

Ltac run_sample := vm_compute; reflexivity.

Lemma states_differ (st1 st2 : state) :
  elements (known_teams st1) <> elements (known_teams st2) -> st1 <> st2.
Proof. intros Hne ->. by apply Hne. Qed.

(** ** The scenarios of the specification *)

Example sanitize_backend_team :
  sanitize_namespace_name no_isalnum no_lower (lit "Backend Team!!")
    = lit "team-backend-team".
Proof. reflexivity. Qed.

(** Teams ["1"] and ["2"] appear: two creates.  Team ["1"] leaves: one
    delete, no create, and only ["2"] stays tracked. *)
Example two_teams_then_one :
  reconcile0 (ok [alpha; beta]) cluster_ok init_state
    = (inl tt,
       {| known_teams := {[ lit "1"; lit "2" ]};
          team_namespaces :=
            {[ lit "1" := lit "team-alpha"; lit "2" := lit "team-beta" ]} |},
       [CreateNamespace (lit "2") (lit "Beta") (lit "team-beta");
        CreateNamespace (lit "1") (lit "Alpha") (lit "team-alpha");
        LogSummary 2 2])
  /\ reconcile0 (ok [beta]) cluster_ok
       {| known_teams := {[ lit "1"; lit "2" ]};
          team_namespaces :=
            {[ lit "1" := lit "team-alpha"; lit "2" := lit "team-beta" ]} |}
     = (inl tt,
        {| known_teams := {[ lit "2" ]};
           team_namespaces := {[ lit "2" := lit "team-beta" ]} |},
        [DeleteNamespace (lit "team-alpha") (lit "team-1"); LogSummary 1 1]).
Proof. split; run_sample. Qed.

(** A team object without a name aborts the cycle inside the loop over
    the new teams: [known_teams] is not written. *)
Example nameless_team_aborts_cycle :
  reconcile0 (ok [no_name]) cluster_ok tracking_alpha
    = (inr (KeyError (lit "name")), tracking_alpha, []).
Proof. run_sample. Qed.

(** ** C1 *)

(** C1 fails as stated: the registry is unreachable while team ["1"] is
    tracked; the cycle deletes the namespace of the team and forgets the
    team. *)
Lemma failed_fetch_deletes_namespace :
  fetch_failed ClientError = true
  /\ reconcile0 ClientError cluster_ok tracking_alpha
     = (inl tt, init_state,
        [DeleteNamespace (lit "team-alpha") (lit "team-1"); LogSummary 0 0])
  /\ init_state <> tracking_alpha.
Proof.
  split; [reflexivity|]. split; [run_sample|].
  apply states_differ. vm_compute. discriminate.
Qed.

Lemma failed_fetch_cycle_witness :
  fetch_failed ClientError = true
  /\ exists st' tr,
       reconcile0 ClientError cluster_ok tracking_alpha = (inl tt, st', tr)
       /\ known_teams st' = ∅.
Proof.
  split; [reflexivity|].
  destruct (failed_fetch_cycle no_isalnum no_lower ClientError cluster_ok
              tracking_alpha eq_refl) as (st' & tr & Hrun & _ & Hknown & _).
  exists st', tr. split; assumption.
Defined.

(** ** C3 *)

(** C3 fails as stated: the create for team ["3"] fails in the first
    cycle; the id is known after that cycle, and the second cycle, which
    fetches the same team, issues no call at all. *)
Lemma failed_create_is_forgotten :
  create_outcome_for no_isalnum no_lower cluster_failing (lit "3") (lit "Gamma")
    = CreateFailed
  /\ reconcile0 (ok [gamma]) cluster_failing init_state
     = (inl tt, after_failed_create,
        [CreateNamespace (lit "3") (lit "Gamma") (lit "team-gamma");
         LogSummary 1 0])
  /\ lit "3" ∈ known_teams after_failed_create
  /\ reconcile0 (ok [gamma]) cluster_ok after_failed_create
     = (inl tt, after_failed_create, []).
Proof.
  split; [reflexivity|]. split; [run_sample|]. split; [|run_sample].
  simpl. set_solver.
Qed.

Lemma failed_create_not_retried_witness :
  reconcile0 (ok [gamma]) cluster_failing init_state
    = (inl tt, after_failed_create,
       [CreateNamespace (lit "3") (lit "Gamma") (lit "team-gamma");
        LogSummary 1 0])
  /\ create_outcome_for no_isalnum no_lower cluster_failing (lit "3") (lit "Gamma")
     = CreateFailed
  /\ lit "3" ∈ known_teams after_failed_create.
Proof.
  assert (Hrun : reconcile0 (ok [gamma]) cluster_failing init_state
                 = (inl tt, after_failed_create,
                    [CreateNamespace (lit "3") (lit "Gamma") (lit "team-gamma");
                     LogSummary 1 0])) by run_sample.
  split; [exact Hrun|]. split; [reflexivity|].
  refine (proj1 (proj2 (failed_create_not_retried no_isalnum no_lower
            _ _ _ _ _ _ (lit "3") (lit "Gamma") Hrun _ eq_refl))).
  left.
Defined.

(** ** C4 *)

(** C4 fails as stated: team ["1"] left the registry and the delete of
    its namespace fails; the id is no longer known after the cycle, and
    the next cycle issues no call at all. *)
Lemma failed_delete_is_forgotten :
  delete_outcome_for cluster_failing (lit "1") (lit "team-alpha") = DeleteFailed
  /\ reconcile0 (ok []) cluster_failing tracking_alpha
     = (inl tt, after_failed_delete,
        [DeleteNamespace (lit "team-alpha") (lit "team-1"); LogSummary 0 1])
  /\ (lit "1" ∉ known_teams after_failed_delete)
  /\ reconcile0 (ok []) cluster_ok after_failed_delete
     = (inl tt, after_failed_delete, []).
Proof.
  split; [reflexivity|]. split; [run_sample|]. split; [|run_sample].
  simpl. set_solver.
Qed.

Lemma failed_delete_not_retried_witness :
  reconcile0 (ok []) cluster_failing tracking_alpha
    = (inl tt, after_failed_delete,
       [DeleteNamespace (lit "team-alpha") (lit "team-1"); LogSummary 0 1])
  /\ lit "1" ∈ deleted_teams (team_ids (fetch_teams (ok []))) (known_teams tracking_alpha)
  /\ team_namespaces tracking_alpha !! lit "1" = Some (lit "team-alpha")
  /\ delete_outcome_for cluster_failing (lit "1") (lit "team-alpha") = DeleteFailed
  /\ team_namespaces after_failed_delete !! lit "1" = Some (lit "team-alpha").
Proof.
  assert (Hrun : reconcile0 (ok []) cluster_failing tracking_alpha
                 = (inl tt, after_failed_delete,
                    [DeleteNamespace (lit "team-alpha") (lit "team-1");
                     LogSummary 0 1])) by run_sample.
  assert (Hin : lit "1" ∈ deleted_teams (team_ids (fetch_teams (ok [])))
                            (known_teams tracking_alpha)).
  { unfold deleted_teams. change (team_ids (fetch_teams (ok []))) with (∅ : gset str).
    simpl. set_solver. }
  assert (Hns : team_namespaces tracking_alpha !! lit "1" = Some (lit "team-alpha"))
    by run_sample.
  split; [exact Hrun|]. split; [exact Hin|]. split; [exact Hns|].
  split; [reflexivity|].
  exact (proj1 (proj2 (failed_delete_not_retried no_isalnum no_lower
           _ _ _ _ _ _ _ _ Hrun Hin Hns eq_refl))).
Defined.

(** ** C5 *)

(** C5 fails as stated: team ["1"] gets its namespace in the first
    cycle and leaves the registry before the second, whose delete fails;
    the key stays in [team_namespaces] and is not in [known_teams]. *)
Lemma failed_delete_orphans_key :
  run_cycles no_isalnum no_lower
    [(ok [alpha], cluster_ok); (ok [], cluster_failing)] init_state
    = Some after_failed_delete
  /\ ~ dom (team_namespaces after_failed_delete) ⊆ known_teams after_failed_delete.
Proof.
  split; [run_sample|]. simpl. rewrite dom_singleton_L. set_solver.
Qed.

Lemma namespaces_subset_known_witness :
  Forall (fun c : http_outcome * cluster =>
            forall team_id namespace_name,
              delete_outcome_for c.2 team_id namespace_name <> DeleteFailed)
    [(ok [alpha], cluster_ok); (ok [beta], cluster_ok)]
  /\ run_cycles no_isalnum no_lower
       [(ok [alpha], cluster_ok); (ok [beta], cluster_ok)] init_state
     = Some {| known_teams := {[ lit "2" ]};
               team_namespaces := {[ lit "2" := lit "team-beta" ]} |}
  /\ dom (team_namespaces
            {| known_teams := {[ lit "2" ]};
               team_namespaces := {[ lit "2" := lit "team-beta" ]} |})
     ⊆ known_teams
         {| known_teams := {[ lit "2" ]};
            team_namespaces := {[ lit "2" := lit "team-beta" ]} |}.
Proof.
  assert (Hok : Forall (fun c : http_outcome * cluster =>
                   forall team_id namespace_name,
                     delete_outcome_for c.2 team_id namespace_name <> DeleteFailed)
                  [(ok [alpha], cluster_ok); (ok [beta], cluster_ok)])
    by (repeat constructor; discriminate).
  assert (Hrun : run_cycles no_isalnum no_lower
                   [(ok [alpha], cluster_ok); (ok [beta], cluster_ok)] init_state
                 = Some {| known_teams := {[ lit "2" ]};
                           team_namespaces := {[ lit "2" := lit "team-beta" ]} |})
    by run_sample.
  split; [exact Hok|]. split; [exact Hrun|].
  exact (namespaces_subset_known no_isalnum no_lower _ _ Hok Hrun).
Defined.

(** ** C6 *)

Lemma diff_correct_witness :
  reconcile0 (ok [gamma]) cluster_failing tracking_alpha
    = (inl tt,
       {| known_teams := {[ lit "3" ]};
          team_namespaces := {[ lit "1" := lit "team-alpha" ]} |},
       [CreateNamespace (lit "3") (lit "Gamma") (lit "team-gamma");
        DeleteNamespace (lit "team-alpha") (lit "team-1");
        LogSummary 1 1])
  /\ lit "3" ∈ new_teams {[ lit "3" ]} {[ lit "1" ]}
  /\ lit "1" ∈ deleted_teams {[ lit "3" ]} {[ lit "1" ]}.
Proof.
  assert (Hrun : reconcile0 (ok [gamma]) cluster_failing tracking_alpha
                 = (inl tt,
                    {| known_teams := {[ lit "3" ]};
                       team_namespaces := {[ lit "1" := lit "team-alpha" ]} |},
                    [CreateNamespace (lit "3") (lit "Gamma") (lit "team-gamma");
                     DeleteNamespace (lit "team-alpha") (lit "team-1");
                     LogSummary 1 1])) by run_sample.
  split; [exact Hrun|].
  destruct (diff_correct no_isalnum no_lower {[ lit "3" ]} {[ lit "1" ]})
    as (_ & _ & _ & Hcalls).
  destruct (Hcalls (ok [gamma]) cluster_failing tracking_alpha tt _ _
              eq_refl eq_refl Hrun) as [Hnew Hdel].
  split.
  - apply Hnew. exists (lit "Gamma"), (lit "team-gamma"). left.
  - apply Hdel. exists (lit "team-alpha"). right. left.
Defined.

(** ** C7 *)

Lemma create_twice_same_state_witness :
  current_teams_of [alpha] !! lit "1" = Some alpha
  /\ alpha !! lit "name" = Some (lit "Alpha")
  /\ create_outcome_for no_isalnum no_lower cluster_existing (lit "1") (lit "Alpha")
     = AlreadyExists
  /\ create_outcome_for no_isalnum no_lower cluster_ok (lit "1") (lit "Alpha")
     <> CreateFailed
  /\ final_state
       ((handle_new_team no_isalnum no_lower cluster_ok
           (current_teams_of [alpha]) (lit "1") ;;
         handle_new_team no_isalnum no_lower cluster_existing
           (current_teams_of [alpha]) (lit "1")) init_state)
     = final_state
         (handle_new_team no_isalnum no_lower cluster_ok
            (current_teams_of [alpha]) (lit "1") init_state).
Proof.
  assert (Ht : current_teams_of [alpha] !! lit "1" = Some alpha) by run_sample.
  assert (Hname : alpha !! lit "name" = Some (lit "Alpha")) by run_sample.
  assert (Honce : create_outcome_for no_isalnum no_lower cluster_ok
                    (lit "1") (lit "Alpha") <> CreateFailed) by discriminate.
  split; [exact Ht|]. split; [exact Hname|]. split; [reflexivity|].
  split; [exact Honce|].
  exact (proj2 (create_twice_same_state no_isalnum no_lower cluster_ok
                  cluster_existing cluster_ok _ _ _ _ init_state
                  Ht Hname eq_refl Honce)).
Defined.

(** ** C8 *)

Lemma sample_well_formed team_id team_name :
  well_formed (team_object team_id team_name).
Proof.
  unfold well_formed, team_object. split.
  - rewrite lookup_insert_eq. by eexists.
  - rewrite lookup_insert_ne by discriminate. rewrite lookup_insert_eq. by eexists.
Qed.

Lemma cold_start_converges_witness :
  Forall well_formed [alpha; beta]
  /\ (forall team_id team_name,
        create_outcome_for no_isalnum no_lower cluster_ok team_id team_name
        <> CreateFailed)
  /\ exists st' tr,
       reconcile0 (ok [alpha; beta]) cluster_ok init_state = (inl tt, st', tr)
       /\ known_teams st' = team_ids [alpha; beta].
Proof.
  assert (Hwf : Forall well_formed [alpha; beta])
    by (repeat constructor; apply sample_well_formed).
  assert (Hok : forall team_id team_name,
            create_outcome_for no_isalnum no_lower cluster_ok team_id team_name
            <> CreateFailed) by discriminate.
  split; [exact Hwf|]. split; [exact Hok|].
  destruct (cold_start_converges no_isalnum no_lower [alpha; beta] cluster_ok
              Hwf Hok) as (st' & tr & Hrun & Hknown & _).
  exists st', tr. split; assumption.
Defined.

(** ** C9 *)

(** C9 fails as stated.  A team object without an id makes the cycle at
    startup raise [KeyError]: [run] ends with that error and the turn
    that was to follow never happens.  The same error in a cycle of the
    loop is caught, and two sleeps, not one, come before the next
    cycle. *)
Lemma startup_error_ends_run :
  run no_isalnum no_lower 30 (ok [no_id]) cluster_ok
    [Poll (ok [alpha]) cluster_ok] init_state
    = (Crashed (KeyError (lit "id")), init_state, [])
  /\ main_loop no_isalnum no_lower 30
       [Poll (ok [no_id]) cluster_ok; Poll (ok [alpha]) cluster_ok] init_state
     = (Running, tracking_alpha,
        [Sleep 30; LogError (KeyError (lit "id")); Sleep 30;
         Sleep 30;
         CreateNamespace (lit "1") (lit "Alpha") (lit "team-alpha");
         LogSummary 1 1]).
Proof. split; run_sample. Qed.

Lemma loop_survives_cycle_error_witness :
  reconcile0 (ok [no_id]) cluster_ok init_state
    = (inr (KeyError (lit "id")), init_state, [])
  /\ exists s st2 tr2,
       main_loop no_isalnum no_lower 30
         [Poll (ok [no_id]) cluster_ok; Poll (ok [alpha]) cluster_ok] init_state
       = (s, st2,
          Sleep 30 :: [] ++ LogError (KeyError (lit "id")) :: Sleep 30 :: tr2)
       /\ forall e', s <> Crashed e'.
Proof.
  assert (Hrun : reconcile0 (ok [no_id]) cluster_ok init_state
                 = (inr (KeyError (lit "id")), init_state, [])) by run_sample.
  split; [exact Hrun|].
  destruct (loop_survives_cycle_error no_isalnum no_lower 30 _ _
              [Poll (ok [alpha]) cluster_ok] _ _ _ _ Hrun)
    as (s & st2 & tr2 & Hloop & _ & Hs & _).
  exists s, st2, tr2. split; assumption.
Defined.

(** ** C10 *)

Lemma known_teams_after_cycle_witness :
  reconcile0 (ok [gamma]) cluster_failing tracking_alpha
    = (inl tt,
       {| known_teams := {[ lit "3" ]};
          team_namespaces := {[ lit "1" := lit "team-alpha" ]} |},
       [CreateNamespace (lit "3") (lit "Gamma") (lit "team-gamma");
        DeleteNamespace (lit "team-alpha") (lit "team-1");
        LogSummary 1 1])
  /\ known_teams
       {| known_teams := {[ lit "3" ]};
          team_namespaces := {[ lit "1" := lit "team-alpha" ]} |}
     = team_ids (fetch_teams (ok [gamma])).
Proof.
  assert (Hrun : reconcile0 (ok [gamma]) cluster_failing tracking_alpha
                 = (inl tt,
                    {| known_teams := {[ lit "3" ]};
                       team_namespaces := {[ lit "1" := lit "team-alpha" ]} |},
                    [CreateNamespace (lit "3") (lit "Gamma") (lit "team-gamma");
                     DeleteNamespace (lit "team-alpha") (lit "team-1");
                     LogSummary 1 1])) by run_sample.
  split; [exact Hrun|].
  exact (known_teams_after_cycle no_isalnum no_lower _ _ _ _ _ _ Hrun).
Defined.

(** * Further properties of the sanitizer *)

Lemma double_hyphen_cons c s :
  double_hyphen (c :: s) =
    match head s with
    | Some d => (c =? hyphen) && (d =? hyphen) || double_hyphen s
    | None => false
    end.
Proof. by destruct s. Qed.

Lemma double_hyphen_prefix p s :
  p `prefix_of` s -> double_hyphen s = false -> double_hyphen p = false.
Proof.
  intros [k ->]. induction p as [|c p IH]; [done|].
  rewrite <-app_comm_cons, !double_hyphen_cons.
  destruct p as [|d p]; [done|]. cbn [head app].
  intros [H1 H2]%orb_false_iff. rewrite H1. by apply IH.
Qed.

Lemma double_hyphen_suffix p s :
  p `suffix_of` s -> double_hyphen s = false -> double_hyphen p = false.
Proof.
  intros [k ->]. induction k as [|c k IH]; [done|].
  rewrite <-app_comm_cons, double_hyphen_cons. intros H. apply IH.
  destruct (k ++ p) as [|d r]; [done|]. simpl head in H.
  by apply orb_false_iff in H as [_ H].
Qed.

(** The segments of a split hold no separator. *)
Lemma split_no_sep sep s :
  Forall (fun seg => sep ∉ seg) (split sep s).
Proof.
  induction s as [|c s IH]; simpl.
  - repeat constructor. by intros ?%elem_of_nil.
  - destruct (N.eqb_spec c sep) as [->|Hne].
    + constructor; [by intros ?%elem_of_nil | done].
    + destruct (split sep s) as [|seg segs].
      * repeat constructor. intros [?|?%elem_of_nil]%elem_of_cons; congruence.
      * inversion IH; subst. constructor; [|done].
        intros [?|?]%elem_of_cons; [congruence | done].
Qed.

Lemma double_hyphen_free s : hyphen ∉ s -> double_hyphen s = false.
Proof.
  induction s as [|c s IH]; [done|]. rewrite double_hyphen_cons.
  intros [Hc Hs]%not_elem_of_cons. destruct (head s); [|done].
  rewrite (proj2 (N.eqb_neq c hyphen)) by done. by apply IH.
Qed.

Lemma double_hyphen_app_sep a b :
  hyphen ∉ a -> a <> [] ->
  double_hyphen b = false ->
  match head b with Some d => d <> hyphen | None => True end ->
  double_hyphen (a ++ hyphen :: b) = false.
Proof.
  intros Ha Hne Hb Hhead. induction a as [|c a IH]; [done|].
  apply not_elem_of_cons in Ha as [Hc Ha].
  rewrite <-app_comm_cons, double_hyphen_cons.
  rewrite (proj2 (N.eqb_neq c hyphen)) by done.
  destruct a as [|d a].
  - simpl. destruct b as [|e b]; [done|].
    simpl in Hhead. by rewrite (proj2 (N.eqb_neq e hyphen)) by done.
  - simpl head. simpl orb. by apply IH.
Qed.

(** Joined with single hyphens, segments that are not empty and hold no
    hyphen give a string without two hyphens in a row that does not begin
    with a hyphen. *)
Lemma join_no_double_hyphen segs :
  Forall (fun seg => (hyphen ∉ seg) /\ seg <> []) segs ->
  double_hyphen (join [hyphen] segs) = false
  /\ match head (join [hyphen] segs) with
     | Some d => d <> hyphen
     | None => True
     end.
Proof.
  induction 1 as [|seg segs [Hseg Hne] Hsegs [IH1 IH2]]; [done|].
  simpl. destruct segs as [|seg' segs'].
  - split; [by apply double_hyphen_free|].
    destruct seg as [|c seg]; [done|]. simpl. set_solver.
  - split; [by apply (double_hyphen_app_sep seg)|].
    destruct seg as [|c seg]; [done|]. simpl. set_solver.
Qed.

(** Splitting, dropping the empty segments and joining with single
    separators never makes a string longer. *)
Lemma split_length sep s :
  (sum_list (length <$> split sep s) + length (split sep s) = S (length s))%nat.
Proof.
  induction s as [|c s IH]; csimpl; [done|].
  destruct (c =? sep); csimpl; [lia|].
  destruct (split sep s) as [|seg segs]; csimpl in *; lia.
Qed.

Lemma join_length sep segs :
  (length (join [sep] segs) = sum_list (length <$> segs) + (length segs - 1))%nat.
Proof.
  induction segs as [|seg segs IH]; csimpl; [done|].
  destruct segs as [|seg' segs']; csimpl in *; [lia|].
  rewrite length_app. csimpl. lia.
Qed.

Lemma filter_truthy_length segs :
  (sum_list (length <$> List.filter truthy segs) = sum_list (length <$> segs)
   /\ length (List.filter truthy segs) <= length segs)%nat.
Proof.
  induction segs as [|seg segs [IH1 IH2]]; csimpl; [done|].
  destruct seg; csimpl; lia.
Qed.

Lemma collapse_length sep s :
  (length (join [sep] (List.filter truthy (split sep s))) <= length s)%nat.
Proof.
  rewrite join_length.
  destruct (filter_truthy_length (split sep s)) as [-> Hle].
  pose proof (split_length sep s).
  assert (1 <= length (split sep s))%nat.
  { destruct s as [|c s]; simpl; [lia|].
    destruct (c =? sep); simpl; [lia|].
    destruct (split sep s); simpl; lia. }
  lia.
Qed.

Lemma ascii_lower_isalnum c :
  ascii_isalnum c = true ->
  is_ascii (ascii_lower c) = true /\ ascii_isalnum (ascii_lower c) = true.
Proof.
  unfold ascii_isalnum, ascii_lower, is_ascii, is_ascii_digit, is_ascii_upper,
    is_ascii_lower.
  destruct (N.leb_spec 65 c), (N.leb_spec c 90); simpl;
    rewrite ?orb_true_iff, ?andb_true_iff, ?N.leb_le, N.ltb_lt; lia.
Qed.

Section SanitizerShape.

Variable uni_isalnum : N -> bool.
Variable uni_lower : list N -> list N.

Abbreviation sanitize := (sanitize_namespace_name uni_isalnum uni_lower).
Abbreviation isalnum' := (isalnum uni_isalnum).
Abbreviation name_body := (name_body uni_isalnum uni_lower).
Abbreviation collapsed := (collapsed uni_isalnum uni_lower).

Lemma collapsed_no_double_hyphen team_name :
  double_hyphen (collapsed team_name) = false.
Proof.
  apply join_no_double_hyphen.
  set (segs := split hyphen _).
  pose proof (split_no_sep hyphen
                (map (fun c => if isalnum' c then c else hyphen)
                   (lower uni_lower team_name))) as Hsegs.
  fold segs in Hsegs. clearbody segs.
  induction Hsegs as [|seg segs Hseg Hsegs IH]; simpl; [done|].
  destruct seg as [|c seg]; simpl; [done|]. by constructor.
Qed.

Lemma name_body_infix team_name :
  exists mid, name_body team_name `prefix_of` mid
              /\ mid `suffix_of` collapsed team_name.
Proof.
  exists (lstrip [hyphen] (collapsed team_name)).
  split; [|apply lstrip_suffix].
  rewrite name_body_unfold. cbv zeta. destruct (63 <? _)%nat.
  - etrans; [apply rstrip_prefix|]. etrans; [apply prefix_take|].
    apply rstrip_prefix.
  - apply rstrip_prefix.
Qed.

(** X1.  Every sanitized name is the prefix ["team-"] followed by at most
    63 characters, so it has between 5 and 68 characters; each character
    after the prefix is a hyphen or an alphanumeric character of the
    lowered team name. *)
Theorem sanitize_shape team_name :
  exists body,
    sanitize team_name = lit "team-" ++ body
    /\ (length body <= 63)%nat
    /\ (5 <= length (sanitize team_name) <= 68)%nat
    /\ forall c, c ∈ body ->
         c = hyphen \/ (c ∈ lower uni_lower team_name /\ isalnum' c = true).
Proof.
  exists (name_body team_name). split; [apply sanitize_prefix|].
  split; [apply name_body_length|]. split; [apply sanitize_length|].
  apply name_body_chars.
Qed.

(** X2.  After the prefix, a sanitized name neither begins nor ends with
    a hyphen and never has two hyphens in a row. *)
Theorem sanitize_hyphens team_name :
  (forall c, head (name_body team_name) = Some c -> c <> hyphen)
  /\ (forall c, last (name_body team_name) = Some c -> c <> hyphen)
  /\ double_hyphen (name_body team_name) = false.
Proof.
  split; [apply name_body_head|]. split; [apply name_body_last|].
  destruct (name_body_infix team_name) as (mid & Hpre & Hsuf).
  eapply double_hyphen_prefix; [exact Hpre|].
  eapply double_hyphen_suffix; [exact Hsuf|].
  apply collapsed_no_double_hyphen.
Qed.

(** X3.  A sanitized name ends with an alphanumeric character exactly
    when the lowered team name has one; otherwise it is the bare prefix
    ["team-"], which ends with a hyphen. *)
Theorem sanitize_last_character team_name :
  ((exists c, c ∈ lower uni_lower team_name /\ isalnum' c = true) ->
   exists c, last (sanitize team_name) = Some c /\ isalnum' c = true)
  /\ ((forall c, c ∈ lower uni_lower team_name -> isalnum' c = false) ->
      sanitize team_name = lit "team-").
Proof.
  split.
  - intros (c & Hc & Halnum).
    assert (Hne : name_body team_name <> []).
    { intros Hnil.
      pose proof (proj1 (name_body_nil uni_isalnum uni_lower team_name) Hnil c Hc).
      congruence. }
    pose proof (sanitize_last uni_isalnum uni_lower team_name) as Hlast.
    destruct (last (sanitize team_name)) as [d|]; [|done].
    rewrite bool_decide_eq_false_2 in Hlast by done. by exists d.
  - intros Hnone.
    apply (proj2 (name_body_nil uni_isalnum uni_lower team_name)) in Hnone.
    by rewrite sanitize_prefix, Hnone.
Qed.

Lemma name_body_short team_name :
  forallb is_ascii team_name = true ->
  (length (name_body team_name) <= length team_name)%nat.
Proof.
  intros Hascii. rewrite name_body_unfold. cbv zeta.
  assert (Hc : (length (strip [hyphen] (collapsed team_name))
                <= length team_name)%nat).
  { etrans; [apply strip_length|]. unfold collapsed.
    etrans; [apply collapse_length|].
    unfold lower. by rewrite Hascii, !length_map. }
  destruct (63 <? _)%nat; [|done].
  etrans; [apply rstrip_length|]. rewrite length_take. lia.
Qed.

(** X4.  For a team name of at most 58 ASCII characters with a letter or
    a digit among them, the sanitized name obeys the naming rule: at most
    63 characters, lowercase letters, digits and hyphens only, and an
    alphanumeric character at both ends. *)
Theorem sanitize_valid_on_short_ascii team_name :
  forallb is_ascii team_name = true ->
  (length team_name <= 58)%nat ->
  (exists c, c ∈ team_name /\ ascii_isalnum c = true) ->
  valid_namespace_name (sanitize team_name) = true.
Proof.
  intros Hascii Hlen (c & Hc & Halnum).
  pose proof (sanitize_ascii uni_isalnum uni_lower team_name) as Hchars.
  assert (Hchar : forall d, d ∈ sanitize team_name -> is_label_char d = true).
  { intros d Hd. unfold is_label_char, is_label_alnum.
    destruct (Hchars d Hascii Hd) as [-> | [-> | ->]]; [done| |done].
    by rewrite orb_true_r. }
  assert (Hsome : exists d, d ∈ lower uni_lower team_name /\ isalnum' d = true).
  { exists (ascii_lower c). destruct (ascii_lower_isalnum c Halnum) as [Ha Hl].
    split.
    - unfold lower. rewrite Hascii. apply list_elem_of_fmap. by exists c.
    - unfold isalnum. by rewrite Ha. }
  assert (Hne : name_body team_name <> []).
  { intros Hnil. destruct Hsome as (d & Hd & Hdal).
    pose proof (proj1 (name_body_nil uni_isalnum uni_lower team_name) Hnil d Hd).
    congruence. }
  unfold valid_namespace_name. rewrite !andb_true_iff.
  split; [split; [split|]|].
  - apply Nat.leb_le. rewrite sanitize_prefix, length_app.
    pose proof (name_body_short team_name Hascii). simpl. lia.
  - apply forallb_forall. intros d Hd. by apply Hchar, list_elem_of_In.
  - by rewrite sanitize_head.
  - rewrite sanitize_prefix, last_app.
    destruct (last (name_body team_name)) as [d|] eqn:Hlast.
    2: { by apply last_None in Hlast. }
    assert (Hd : d ∈ sanitize team_name).
    { rewrite sanitize_prefix, elem_of_app. right. by eapply last_Some_elem_of. }
    pose proof (name_body_last uni_isalnum uni_lower team_name d Hlast) as Hnh.
    unfold is_label_alnum.
    destruct (Hchars d Hascii Hd) as [-> | [-> | ->]]; [done| |done].
    by rewrite orb_true_r.
Qed.

End SanitizerShape.

(** * Further properties of a cycle *)

Section CycleStructure.

Variable uni_isalnum : N -> bool.
Variable uni_lower : list N -> list N.

Abbreviation sanitize := (sanitize_namespace_name uni_isalnum uni_lower).
Abbreviation reconcile := (reconcile_teams uni_isalnum uni_lower).
Abbreviation handle_new := (handle_new_team uni_isalnum uni_lower).
Abbreviation created := (create_outcome_for uni_isalnum uni_lower).
Abbreviation create_call := (create_call uni_isalnum uni_lower).
Abbreviation sanitized := (sanitized uni_isalnum uni_lower).
Abbreviation all_sanitized := (all_sanitized uni_isalnum uni_lower).

(** A cycle, step by step: the dictionary, the loop over the new teams,
    the loop over the deleted teams, the write of [known_teams] and the
    summary. *)
Lemma reconcile_unfold h k8s st :
  reconcile h k8s st =
    let D := team_ids (fetch_teams h) in
    let K := known_teams st in
    if bool_decide (Forall (fun t : team => is_Some (t !! lit "id")) (fetch_teams h))
    then
      match for_each (elements (D ∖ K))
              (handle_new k8s (current_teams_of (fetch_teams h))) st with
      | (inl _, st1, tr1) =>
          match for_each (elements (K ∖ D)) (handle_deleted_team k8s) st1 with
          | (inl _, st2, tr2) =>
              (inl tt,
               {| known_teams := D; team_namespaces := team_namespaces st2 |},
               tr1 ++ tr2 ++
                 if bool_decide (D ∖ K ≠ ∅) || bool_decide (K ∖ D ≠ ∅)
                 then [LogSummary (size D) (size (team_namespaces st2))]
                 else [])
          | (inr e, st2, tr2) => (inr e, st2, tr1 ++ tr2)
          end
      | (inr e, st1, tr1) => (inr e, st1, tr1)
      end
    else (inr (KeyError (lit "id")), st, []).
Proof.
  cbv zeta. unfold reconcile_teams.
  unfold bind at 1. rewrite (teams_by_id_spec uni_lower).
  fold (current_teams_of (fetch_teams h)).
  case_bool_decide as Hids; [|done].
  unfold bind at 1, get at 1. unfold bind at 1.
  unfold new_teams, deleted_teams. rewrite !(dom_current_teams_of uni_lower).
  rewrite <-(size_dom (current_teams_of (fetch_teams h))),
    (dom_current_teams_of uni_lower).
  set (D := team_ids (fetch_teams h)). set (K := known_teams st).
  destruct (create_loop_spec uni_isalnum uni_lower k8s
              (current_teams_of (fetch_teams h)) (elements (D ∖ K)) st)
    as (r1 & st1 & tr1 & Hloop1 & Hk1 & _); [apply NoDup_elements|].
  rewrite Hloop1. destruct r1 as [[]|e]; [|done].
  unfold bind at 1, get at 1. unfold bind at 1. rewrite Hk1. fold K.
  destruct (delete_loop_spec k8s (elements (K ∖ D)) st1)
    as (st2 & tr2 & Hloop2 & _); [apply NoDup_elements|].
  rewrite Hloop2. unfold bind at 1.
  change (set_known_teams D st2)
    with (inl tt : unit + exn,
          {| known_teams := D; team_namespaces := team_namespaces st2 |},
          @nil event).
  destruct (bool_decide (D ∖ K ≠ ∅) || bool_decide (K ∖ D ≠ ∅)); done.
Qed.

(** The calls of the two loops, one per element and in the order of the
    loop. *)
Lemma create_loop_trace k8s teams ids st r st' tr :
  for_each ids (handle_new k8s (current_teams_of teams)) st = (r, st', tr) ->
  match r with
  | inl _ => tr = omap (create_call teams) ids /\ length tr = length ids
  | inr e =>
      (e = KeyError (lit "name")
       \/ exists team_id, team_id ∈ ids
            /\ current_teams_of teams !! team_id = None /\ e = KeyError team_id)
      /\ forall ev, ev ∈ tr -> exists team_id team_name namespace_name,
           ev = CreateNamespace team_id team_name namespace_name
  end.
Proof.
  revert st tr. induction ids as [|x ids IH]; intros st tr; simpl.
  - unfold ret. by intros [= <- <- <-].
  - unfold bind at 1. rewrite handle_new_team_eq.
    unfold create_call, desired_name.
    destruct (current_teams_of teams !! x) as [t|] eqn:Ht.
    2: { intros [= <- <- <-]. split.
         - right. exists x. split; [left | done].
         - by intros ev ?%elem_of_nil. }
    destruct (t !! lit "name") as [team_name|] eqn:Hname.
    2: { intros [= <- <- <-]. split; [by left|]. by intros ev ?%elem_of_nil. }
    destruct (for_each ids _ _) as [[r2 st2] tr2] eqn:Hrest.
    intros [= <- <- <-]. specialize (IH _ _ Hrest).
    destruct r2 as [u|e].
    + destruct IH as [-> Hlen]. split; [done|]. simpl. by rewrite Hlen.
    + destruct IH as [He Hev]. split.
      * destruct He as [->|(i & Hi & Hnone & ->)]; [by left|].
        right. exists i. split; [by right | done].
      * intros ev [->|Hin]%elem_of_cons; [eauto | by apply Hev].
Qed.

Lemma omap_delete_call_ext st1 st2 (ids : list str) :
  (forall i, i ∈ ids -> team_namespaces st1 !! i = team_namespaces st2 !! i) ->
  omap (delete_call st1) ids = omap (delete_call st2) ids.
Proof.
  induction ids as [|y ids IH]; intros Hsame; [done|]. csimpl.
  assert (delete_call st1 y = delete_call st2 y) as ->.
  { unfold delete_call. rewrite Hsame; [done | left]. }
  rewrite IH; [done|]. intros i Hi. apply Hsame. by right.
Qed.

Lemma delete_loop_trace k8s ids st r st' tr :
  NoDup ids ->
  for_each ids (handle_deleted_team k8s) st = (r, st', tr) ->
  tr = omap (delete_call st) ids.
Proof.
  intros Hnd. revert st tr.
  induction Hnd as [|x ids Hx Hnd IH]; intros st tr; simpl.
  - unfold ret. by intros [= <- <- <-].
  - unfold bind at 1. rewrite handle_deleted_team_eq. unfold delete_call at 1.
    set (step := match team_namespaces st !! x with None => _ | Some _ => _ end).
    assert (exists st1, step = (inl tt, st1,
                           match team_namespaces st !! x with
                           | Some n => [DeleteNamespace n (lit "team-" ++ x)]
                           | None => []
                           end)
              /\ forall i, i <> x ->
                   team_namespaces st1 !! i = team_namespaces st !! i)
      as (st1 & -> & Hother).
    { subst step. destruct (team_namespaces st !! x) as [n|]; [|by eexists].
      eexists. split; [done|]. intros i Hi.
      destruct (delete_outcome_for k8s x n); simpl;
        by rewrite ?lookup_delete_ne. }
    destruct (for_each ids _ st1) as [[r2 st2] tr2] eqn:Hrest.
    intros [= <- <- <-]. rewrite (IH _ _ Hrest).
    rewrite (omap_delete_call_ext st1 st ids).
    + by destruct (team_namespaces st !! x).
    + intros i Hi. apply Hother. by intros ->.
Qed.

(** X5.  A cycle that completes issues exactly one create for each
    fetched id that was not known, then exactly one delete for each known
    id that was not fetched and has a namespace on record, and last logs
    the summary if one of the two differences is not empty; every create
    comes before every delete. *)
Theorem cycle_calls h k8s st u st' tr :
  reconcile h k8s st = (inl u, st', tr) ->
  let D := team_ids (fetch_teams h) in
  let K := known_teams st in
  tr = omap (create_call (fetch_teams h)) (elements (D ∖ K))
       ++ omap (delete_call st) (elements (K ∖ D))
       ++ (if bool_decide (D ∖ K ≠ ∅) || bool_decide (K ∖ D ≠ ∅)
           then [LogSummary (size D) (size (team_namespaces st'))]
           else [])
  /\ length (omap (create_call (fetch_teams h)) (elements (D ∖ K)))
     = size (D ∖ K).
Proof.
  intros Hrun D K. rewrite reconcile_unfold in Hrun. cbv zeta in Hrun.
  fold D K in Hrun. case_bool_decide as Hids; [|done].
  destruct (for_each (elements (D ∖ K)) _ st) as [[[u1|e1] st1] tr1] eqn:Hloop1;
    [|done].
  destruct (for_each (elements (K ∖ D)) _ st1) as [[[u2|e2] st2] tr2] eqn:Hloop2;
    [|done].
  injection Hrun as <- <-. simpl.
  pose proof (create_loop_trace _ _ _ _ _ _ _ Hloop1) as [Htr1 Hlen1].
  pose proof (delete_loop_trace _ _ _ _ _ _ (NoDup_elements _) Hloop2) as Htr2.
  destruct (create_loop_spec uni_isalnum uni_lower k8s
              (current_teams_of (fetch_teams h)) (elements (D ∖ K)) st)
    as (r & st1' & tr1' & Heq & _ & Hout1 & _); [apply NoDup_elements|].
  rewrite Hloop1 in Heq. injection Heq as <- <- <-.
  assert (Hsame : omap (delete_call st1) (elements (K ∖ D))
                  = omap (delete_call st) (elements (K ∖ D))).
  { apply omap_delete_call_ext. intros i Hi. apply Hout1.
    rewrite elem_of_elements in *. set_solver. }
  split.
  - by rewrite <-Htr1, <-Hsame, <-Htr2.
  - by rewrite <-Htr1, Hlen1.
Qed.



(** X8.  When every fetched team has an id and the fetched ids are the
    known ids, the cycle does nothing: no call, no log, and the state is
    left as it was. *)
Theorem unchanged_registry_is_noop h k8s st :
  Forall (fun t : team => is_Some (t !! lit "id")) (fetch_teams h) ->
  team_ids (fetch_teams h) = known_teams st ->
  reconcile h k8s st = (inl tt, st, []).
Proof.
  intros Hids Hsame. rewrite reconcile_unfold. cbv zeta.
  rewrite bool_decide_eq_true_2 by done. rewrite Hsame.
  rewrite difference_diag_L, elements_empty. simpl. unfold ret.
  rewrite bool_decide_eq_false_2 by (by intros []). simpl.
  by destruct st.
Qed.

(** X9.  A cycle, completed or not, leaves alone every team id that is
    both fetched and known, and every id that is neither: its
    namespace record is unchanged and no create and no delete is issued
    for it, even when the name of the team changed. *)
Theorem kept_team_untouched h k8s st r st' tr team_id :
  reconcile h k8s st = (r, st', tr) ->
  (team_id ∈ team_ids (fetch_teams h) <-> team_id ∈ known_teams st) ->
  team_namespaces st' !! team_id = team_namespaces st !! team_id
  /\ (forall team_name namespace_name,
        CreateNamespace team_id team_name namespace_name ∉ tr)
  /\ (forall namespace_name,
        DeleteNamespace namespace_name (lit "team-" ++ team_id) ∉ tr).
Proof.
  intros Hrun Hkept.
  destruct (reconcile_spec _ _ _ _ _ _ _ _ Hrun) as (Hev & Hns & _).
  split; [|split].
  - destruct (Hns team_id) as [?|[? _]]; [set_solver|done|set_solver].
  - intros team_name namespace_name Hin.
    destruct (Hev _ Hin) as [? _]. set_solver.
  - intros namespace_name Hin.
    destruct (Hev _ Hin) as (i & Heq & Hi & _).
    apply app_inv_head in Heq as <-. set_solver.
Qed.

(** X10.  In a cycle that completes, a new team whose create succeeds
    (created, or exists already) is recorded under its sanitized name and
    becomes known; a removed team whose delete succeeds (deleted, or not
    found), or that has no namespace on record, is forgotten in both
    structures. *)
Theorem successful_changes_recorded h k8s st u st' tr team_id :
  reconcile h k8s st = (inl u, st', tr) ->
  (team_id ∈ team_ids (fetch_teams h) ∖ known_teams st ->
   exists team_name,
     desired_name (fetch_teams h) team_id = Some team_name
     /\ team_id ∈ known_teams st'
     /\ (created k8s team_id team_name <> CreateFailed ->
         team_namespaces st' !! team_id = Some (sanitize team_name)))
  /\ (team_id ∈ known_teams st ∖ team_ids (fetch_teams h) ->
      (team_id ∉ known_teams st')
      /\ ((forall namespace_name,
            team_namespaces st !! team_id = Some namespace_name ->
            delete_outcome_for k8s team_id namespace_name <> DeleteFailed) ->
          team_namespaces st' !! team_id = None)).
Proof.
  intros Hrun.
  destruct (reconcile_spec _ _ _ _ _ _ _ _ Hrun)
    as (_ & _ & Hknown & Hnew & Hdel & _).
  split.
  - intros Hin. destruct (Hnew _ Hin) as (team_name & Hname & _ & Hns).
    exists team_name. split; [done|]. split; [rewrite Hknown; set_solver|].
    intros Hok. rewrite Hns. by destruct (created k8s team_id team_name).
  - intros Hin. split; [rewrite Hknown; set_solver|].
    intros Hok. rewrite (Hdel _ Hin).
    destruct (team_namespaces st !! team_id) as [n|]; [|done].
    specialize (Hok n eq_refl). by destruct (delete_outcome_for k8s team_id n).
Qed.

(** *** What a cycle keeps *)

Lemma for_each_state {X} (P : state -> Prop) (body : X -> M unit) xs st r st' tr :
  (forall x st0 r0 st1 tr0, body x st0 = (r0, st1, tr0) -> P st0 -> P st1) ->
  P st -> for_each xs body st = (r, st', tr) -> P st'.
Proof.
  intros Hbody. revert st tr. induction xs as [|x xs IH]; intros st tr HP; simpl.
  - unfold ret. by intros [= <- <- <-].
  - unfold bind. destruct (body x st) as [[[u|e] st1] tr1] eqn:Hx.
    + destruct (for_each xs body st1) as [[r2 st2] tr2] eqn:Hrest.
      intros [= <- <- <-]. eapply IH; [|exact Hrest]. by eapply Hbody.
    + intros [= <- <- <-]. by eapply Hbody.
Qed.

Lemma cycle_keeps_sanitized h k8s st r st' tr :
  all_sanitized st ->
  reconcile h k8s st = (r, st', tr) ->
  all_sanitized st'
  /\ forall namespace_name team_name,
       DeleteNamespace namespace_name team_name ∈ tr -> sanitized namespace_name.
Proof.
  intros Hst Hrun. split.
  - rewrite reconcile_unfold in Hrun. cbv zeta in Hrun.
    case_bool_decide; [|by injection Hrun as <- <- <-].
    destruct (for_each (elements _) (handle_new _ _) st)
      as [[r1 st1] tr1] eqn:Hloop1.
    assert (Hst1 : all_sanitized st1).
    { eapply (for_each_state all_sanitized); [|exact Hst|exact Hloop1].
      intros x st0 r0 st2 tr0. rewrite handle_new_team_eq.
      destruct (current_teams_of (fetch_teams h) !! x) as [t|];
        [|by intros [= <- <- <-]].
      destruct (t !! lit "name") as [team_name|]; [|by intros [= <- <- <-]].
      intros [= <- <- <-] H0.
      destruct (created k8s x team_name); [| |done];
        intros i n; simpl; (destruct (decide (x = i)) as [->|];
          [rewrite lookup_insert_eq; intros [= <-]; by exists team_name
          |rewrite lookup_insert_ne by done; apply H0]). }
    destruct r1 as [u1|e1]; [|by injection Hrun as <- <- <-].
    destruct (for_each (elements _) (handle_deleted_team _) st1)
      as [[r2 st2] tr2] eqn:Hloop2.
    assert (Hst2 : all_sanitized st2).
    { eapply (for_each_state all_sanitized); [|exact Hst1|exact Hloop2].
      intros x st0 r0 st3 tr0. rewrite handle_deleted_team_eq.
      destruct (team_namespaces st0 !! x) as [n|] eqn:Hn;
        [|by intros [= <- <- <-]].
      intros [= <- <- <-] H0.
      destruct (delete_outcome_for k8s x n); [| |done];
        intros i m; simpl; (destruct (decide (x = i)) as [->|];
          [by rewrite lookup_delete_eq
          |rewrite lookup_delete_ne by done; apply H0]). }
    destruct r2 as [u2|e2]; by injection Hrun as <- <- <-.
  - intros namespace_name team_name Hin.
    destruct (reconcile_spec _ _ _ _ _ _ _ _ Hrun) as (Hev & _).
    destruct (Hev _ Hin) as (i & _ & _ & Hns). by eapply Hst.
Qed.

Lemma sanitized_prefix namespace_name :
  sanitized namespace_name ->
  lit "team-" `prefix_of` namespace_name /\ (length namespace_name <= 68)%nat.
Proof.
  intros [team_name ->]. split.
  - rewrite sanitize_prefix. by eexists.
  - apply sanitize_length.
Qed.

Lemma main_loop_keeps_sanitized poll_interval turns st s st' tr :
  all_sanitized st ->
  main_loop uni_isalnum uni_lower poll_interval turns st = (s, st', tr) ->
  all_sanitized st'
  /\ forall namespace_name team_name,
       DeleteNamespace namespace_name team_name ∈ tr -> sanitized namespace_name.
Proof.
  revert st s st' tr.
  induction turns as [|[h k8s|] turns IH]; intros st s st' tr Hst; simpl.
  - intros [= <- <- <-]. split; [done|]. by intros ? ? ?%elem_of_nil.
  - destruct (reconcile h k8s st) as [[r st1] tr1] eqn:Hrun.
    destruct (cycle_keeps_sanitized _ _ _ _ _ _ Hst Hrun) as [Hst1 Htr1].
    destruct (main_loop _ _ _ turns st1) as [[s2 st2] tr2] eqn:Hloop.
    destruct (IH _ _ _ _ Hst1 Hloop) as [Hst2 Htr2].
    destruct r as [u|e]; intros [= <- <- <-]; (split; [done|]);
      intros n tn; rewrite elem_of_cons, elem_of_app, ?elem_of_cons;
      intros [?|[?|?]]; try done; eauto.
    destruct H as [?|[?|?]]; try done; eauto.
  - intros [= <- <- <-]. split; [done|].
    intros ? ? [?|?%elem_of_nil]%elem_of_cons; done.
Qed.

(** X11.  Whatever the registry and the cluster answer, a run that
    starts with the empty state only ever records names that the
    sanitizer produced, and every delete it issues is for such a name: a
    name of at most 68 characters that begins with ["team-"]. *)
Theorem run_deletes_only_team_namespaces poll_interval h k8s turns s st tr :
  run uni_isalnum uni_lower poll_interval h k8s turns init_state = (s, st, tr) ->
  (forall team_id namespace_name,
     team_namespaces st !! team_id = Some namespace_name ->
     sanitized namespace_name)
  /\ forall namespace_name team_name,
       DeleteNamespace namespace_name team_name ∈ tr ->
       sanitized namespace_name
       /\ lit "team-" `prefix_of` namespace_name
       /\ (length namespace_name <= 68)%nat.
Proof.
  unfold run.
  assert (Hinit : all_sanitized init_state) by (by intros i n).
  destruct (reconcile h k8s init_state) as [[r st1] tr1] eqn:Hrun.
  destruct (cycle_keeps_sanitized _ _ _ _ _ _ Hinit Hrun) as [Hst1 Htr1].
  assert (Hgoal : forall st' (tr' : list event),
            all_sanitized st' ->
            (forall n tn, DeleteNamespace n tn ∈ tr' -> sanitized n) ->
            (forall i n, team_namespaces st' !! i = Some n -> sanitized n)
            /\ forall n tn, DeleteNamespace n tn ∈ tr' ->
                 sanitized n /\ lit "team-" `prefix_of` n /\ (length n <= 68)%nat).
  { intros st' tr' H1 H2. split; [done|]. intros n tn Hin.
    split; [by eapply H2|]. eapply sanitized_prefix, H2, Hin. }
  destruct r as [u|e].
  - destruct (main_loop _ _ _ turns st1) as [[s2 st2] tr2] eqn:Hloop.
    destruct (main_loop_keeps_sanitized _ _ _ _ _ _ Hst1 Hloop) as [Hst2 Htr2].
    intros [= <- <- <-]. apply Hgoal; [done|].
    intros n tn [?|?]%elem_of_app; eauto.
  - intros [= <- <- <-]. by apply Hgoal.
Qed.

(** *** The loop *)






End CycleStructure.

(** * Properties of the registry *)

Section DictFacts.

Context {V : Type}.
Implicit Types (d : list (str * V)) (k : str) (v : V).

Lemma dict_get_set_eq d k v : Api.dict_get (Api.dict_set d k v) k = Some v.
Proof.
  induction d as [|[k' v'] d IH]; simpl.
  - by rewrite decide_True.
  - destruct (decide (k' = k)) as [->|Hne]; simpl.
    + by rewrite decide_True.
    + by rewrite decide_False.
Qed.

Lemma dict_get_set_ne d k k' v :
  k' <> k -> Api.dict_get (Api.dict_set d k v) k' = Api.dict_get d k'.
Proof.
  intros Hne. induction d as [|[k0 v0] d IH]; simpl.
  - by rewrite decide_False.
  - destruct (decide (k0 = k)) as [->|Hk]; simpl.
    + by rewrite !decide_False.
    + by rewrite IH.
Qed.

Lemma dict_get_None d k : Api.dict_get d k = None <-> k ∉ d.*1.
Proof.
  induction d as [|[k' v'] d IH]; simpl.
  - split; [by intros _ ?%elem_of_nil | done].
  - rewrite not_elem_of_cons. destruct (decide (k' = k)) as [->|Hne].
    + split; [done | by intros [? _]].
    + rewrite IH. naive_solver.
Qed.

Lemma dict_get_Some d k v : Api.dict_get d k = Some v -> (k, v) ∈ d.
Proof.
  induction d as [|[k' v'] d IH]; simpl; [done|].
  destruct (decide (k' = k)) as [->|Hne].
  - intros [= ->]. left.
  - intros H. right. by apply IH.
Qed.

Lemma dict_set_elem_of d k v x :
  x ∈ Api.dict_set d k v -> x ∈ d \/ x = (k, v).
Proof.
  induction d as [|[k' v'] d IH]; simpl.
  - intros ->%list_elem_of_singleton. by right.
  - destruct (decide (k' = k)) as [->|Hne].
    + intros [->|?]%elem_of_cons; [by right | left; by right].
    + intros [->|[?|?]%IH]%elem_of_cons; [left; left | left; by right | by right].
Qed.

Lemma dict_set_length d k v :
  length (Api.dict_set d k v)
  = match Api.dict_get d k with
    | Some _ => length d
    | None => S (length d)
    end.
Proof.
  induction d as [|[k' v'] d IH]; simpl; [done|].
  destruct (decide (k' = k)); simpl; [done|].
  rewrite IH. by destruct (Api.dict_get d k).
Qed.

Lemma dict_set_keys d k v : NoDup d.*1 -> NoDup (Api.dict_set d k v).*1.
Proof.
  induction d as [|[k' v'] d IH]; simpl.
  - intros _. apply NoDup_singleton.
  - rewrite !NoDup_cons. intros [Hk' Hd].
    destruct (decide (k' = k)) as [->|Hne]; csimpl.
    + by apply NoDup_cons.
    + apply NoDup_cons. split; [|by apply IH].
      intros [[k0 v0] [Heq Hin]]%list_elem_of_fmap. simpl in Heq. subst k0.
      apply dict_set_elem_of in Hin as [Hin|[= -> _]]; [|done].
      apply Hk'. apply list_elem_of_fmap. by exists (k', v0).
Qed.

Lemma dict_set_fresh {B} (f : str * V -> B) d k v :
  NoDup (f <$> d) -> f (k, v) ∉ f <$> d -> NoDup (f <$> Api.dict_set d k v).
Proof.
  induction d as [|[k' v'] d IH]; csimpl.
  - intros _ _. apply NoDup_singleton.
  - rewrite NoDup_cons, not_elem_of_cons. intros [Hhd Hd] [Hne Hnew].
    destruct (decide (k' = k)) as [->|Hk]; csimpl.
    + by apply NoDup_cons.
    + apply NoDup_cons. split; [|by apply IH].
      intros [x [Heq Hin]]%list_elem_of_fmap.
      apply dict_set_elem_of in Hin as [Hin| ->]; [|congruence].
      apply Hhd. rewrite Heq. by apply list_elem_of_fmap_2.
Qed.

Lemma dict_pop_elem_of d k x : x ∈ Api.dict_pop d k -> x ∈ d.
Proof.
  induction d as [|[k' v'] d IH]; simpl; [done|].
  destruct (decide (k' = k)); [by right|].
  intros [->|?]%elem_of_cons; [left | right; by apply IH].
Qed.

Lemma dict_pop_NoDup {B} (f : str * V -> B) d k :
  NoDup (f <$> d) -> NoDup (f <$> Api.dict_pop d k).
Proof.
  induction d as [|[k' v'] d IH]; csimpl; [done|].
  rewrite NoDup_cons. intros [Hhd Hd].
  destruct (decide (k' = k)); csimpl; [done|].
  apply NoDup_cons. split; [|by apply IH].
  intros [x [Heq Hin]]%list_elem_of_fmap. apply Hhd. rewrite Heq.
  eapply list_elem_of_fmap_2, dict_pop_elem_of, Hin.
Qed.

Lemma dict_get_pop_eq d k : NoDup d.*1 -> Api.dict_get (Api.dict_pop d k) k = None.
Proof.
  induction d as [|[k' v'] d IH]; csimpl; [done|].
  rewrite NoDup_cons. intros [Hk' Hd].
  destruct (decide (k' = k)) as [->|Hne]; simpl.
  - by apply dict_get_None.
  - rewrite decide_False by done. by apply IH.
Qed.

Lemma dict_get_pop_ne d k k' :
  k' <> k -> Api.dict_get (Api.dict_pop d k) k' = Api.dict_get d k'.
Proof.
  intros Hne. induction d as [|[k0 v0] d IH]; simpl; [done|].
  destruct (decide (k0 = k)) as [->|Hk]; simpl.
  - by rewrite decide_False.
  - by rewrite IH.
Qed.

Lemma dict_pop_length d k :
  is_Some (Api.dict_get d k) -> S (length (Api.dict_pop d k)) = length d.
Proof.
  induction d as [|[k' v'] d IH]; simpl; [by intros [? ?]|].
  destruct (decide (k' = k)); simpl; [done|]. intros H. by rewrite IH.
Qed.

End DictFacts.

Section Registry.

Variable uni_lower : list N -> list N.

Abbreviation create_team := (Api.create_team uni_lower).
Abbreviation store_ok := (Api.store_ok uni_lower).

Lemma name_taken_spec (teams_store : list (str * Api.Team)) team_name :
  existsb
    (fun existing : Api.Team =>
       bool_decide (lower uni_lower (Api.name existing)
                    = lower uni_lower team_name))
    teams_store.*2 = true
  <-> exists t, t ∈ Api.get_teams teams_store
        /\ lower uni_lower (Api.name t) = lower uni_lower team_name.
Proof.
  rewrite existsb_exists. unfold Api.get_teams. split.
  - intros (t & Hin & Heq%bool_decide_eq_true). exists t.
    split; [by apply list_elem_of_In | done].
  - intros (t & Hin & Heq). exists t.
    split; [by apply list_elem_of_In | by apply bool_decide_eq_true].
Qed.

(** X15.  [create_team] answers 400 exactly when a stored team has the
    same name up to case, and then leaves the store as it was; otherwise
    it answers the new team, built from the name, the drawn id and the
    time. *)
Theorem create_team_rejects_taken_name teams_store team_name uuid4 now :
  ((exists t, t ∈ Api.get_teams teams_store
      /\ lower uni_lower (Api.name t) = lower uni_lower team_name)
   <-> create_team teams_store team_name uuid4 now
       = (Api.HTTPException 400 (lit "Team name already exists"), teams_store))
  /\ ((forall t, t ∈ Api.get_teams teams_store ->
         lower uni_lower (Api.name t) <> lower uni_lower team_name)
      <-> (create_team teams_store team_name uuid4 now).1
          = Api.Return {| Api.id := uuid4; Api.name := team_name;
                          Api.created_at := now |}).
Proof.
  unfold Api.create_team.
  destruct (existsb _ _) eqn:Htaken.
  - apply name_taken_spec in Htaken. split; [done|]. split; [|done].
    intros Hfree. destruct Htaken as (t & Hin & Heq). by destruct (Hfree t Hin).
  - split.
    + split; [|done]. intros Hex%name_taken_spec. congruence.
    + split; [done|]. intros _ t Hin Heq.
      assert (existsb
                (fun existing : Api.Team =>
                   bool_decide (lower uni_lower (Api.name existing)
                                = lower uni_lower team_name))
                teams_store.*2 = true) by (apply name_taken_spec; eauto).
      congruence.
Qed.

(** X16.  After [create_team] accepted a team, [get_team] answers that
    team for its id and answers for every other id as before; the count
    that [health_check] reports grows by one when the id was not in the
    store. *)
Theorem create_team_then_get teams_store team_name uuid4 now t store' :
  create_team teams_store team_name uuid4 now = (Api.Return t, store') ->
  Api.get_team store' uuid4 = Api.Return t
  /\ (forall other, other <> uuid4 ->
        Api.get_team store' other = Api.get_team teams_store other)
  /\ (Api.health_check store').2
     = match Api.get_team teams_store uuid4 with
       | Api.Return _ => (Api.health_check teams_store).2
       | Api.HTTPException _ _ => S (Api.health_check teams_store).2
       end.
Proof.
  unfold Api.create_team. destruct (existsb _ _); [done|].
  intros [= <- <-]. unfold Api.get_team, Api.health_check. simpl.
  split; [by rewrite dict_get_set_eq|]. split.
  - intros other Hne. by rewrite dict_get_set_ne.
  - rewrite dict_set_length. by destruct (Api.dict_get teams_store uuid4).
Qed.

Lemma create_team_keeps_ok teams_store team_name uuid4 now :
  store_ok teams_store ->
  store_ok (create_team teams_store team_name uuid4 now).2.
Proof.
  intros (Hkeys & Hids & Hnames). unfold Api.create_team.
  destruct (existsb _ _) eqn:Htaken; [done|]. simpl.
  split; [by apply dict_set_keys|]. split.
  - apply Forall_forall. intros x [Hin| ->]%dict_set_elem_of; [|done].
    rewrite Forall_forall in Hids. by apply Hids.
  - apply (dict_set_fresh
             (fun kt : str * Api.Team => lower uni_lower (Api.name kt.2)));
      [done|]. simpl.
    intros [[k t] [Heq Hin]]%list_elem_of_fmap. simpl in Heq.
    assert (existsb
              (fun existing : Api.Team =>
                 bool_decide (lower uni_lower (Api.name existing)
                              = lower uni_lower team_name))
              teams_store.*2 = true); [|congruence].
    apply name_taken_spec. exists t. split; [|done].
    unfold Api.get_teams. apply list_elem_of_fmap. by exists (k, t).
Qed.

Lemma delete_team_keeps_ok teams_store team_id :
  store_ok teams_store -> store_ok (Api.delete_team teams_store team_id).2.
Proof.
  intros (Hkeys & Hids & Hnames). unfold Api.delete_team.
  destruct (Api.dict_get teams_store team_id); [|done]. simpl.
  split; [by apply (dict_pop_NoDup fst)|]. split.
  - apply Forall_forall. intros x Hin%dict_pop_elem_of.
    rewrite Forall_forall in Hids. by apply Hids.
  - by apply (dict_pop_NoDup
                (fun kt : str * Api.Team => lower uni_lower (Api.name kt.2))).
Qed.

Lemma serve_keeps_ok teams_store req :
  store_ok teams_store -> store_ok (Api.serve uni_lower teams_store req).
Proof.
  destruct req; simpl; [apply create_team_keeps_ok | apply delete_team_keeps_ok].
Qed.

Lemma serve_all_ok reqs : store_ok (Api.serve_all uni_lower reqs).
Proof.
  unfold Api.serve_all.
  assert (Hempty : store_ok []).
  { split; [apply NoDup_nil_2|]. split; [done | apply NoDup_nil_2]. }
  revert Hempty. generalize (@nil (str * Api.Team)).
  induction reqs as [|req reqs IH]; intros teams_store Hok; simpl; [done|].
  by apply IH, serve_keeps_ok.
Qed.

(** X17.  Whatever requests the registry serves from the empty store,
    the store keeps its shape: ids are distinct, the key of every team is
    the id in its record, and no two teams have the same name up to
    case. *)
Theorem registry_store_invariant reqs :
  NoDup (Api.id <$> Api.get_teams (Api.serve_all uni_lower reqs))
  /\ (forall team_id t,
        Api.get_team (Api.serve_all uni_lower reqs) team_id = Api.Return t ->
        Api.id t = team_id)
  /\ NoDup ((fun t => lower uni_lower (Api.name t))
              <$> Api.get_teams (Api.serve_all uni_lower reqs)).
Proof.
  destruct (serve_all_ok reqs) as (Hkeys & Hids & Hnames).
  set (teams_store := Api.serve_all uni_lower reqs) in *. clearbody teams_store.
  unfold Api.get_teams, Api.get_team. split; [|split].
  - assert (Api.id <$> teams_store.*2 = teams_store.*1) as ->; [|done].
    clear Hkeys Hnames. induction Hids as [|[k t] d Hkt Hd IH]; csimpl; [done|].
    simpl in Hkt. by rewrite Hkt, IH.
  - intros team_id t.
    destruct (Api.dict_get teams_store team_id) as [t'|] eqn:Hget; [|done].
    intros [= ->]. apply dict_get_Some in Hget.
    rewrite Forall_forall in Hids. by apply (Hids (team_id, t)).
  - by rewrite <-list_fmap_compose.
Qed.

(** X18.  On a store with distinct keys, [delete_team] answers 404 for
    an id that is not stored and leaves the store as it was; for a stored
    id it removes that team and no other: [get_team] then answers 404 for
    the id and as before for every other id, and one team less is
    counted. *)
Theorem delete_team_effect teams_store team_id :
  NoDup teams_store.*1 ->
  match Api.delete_team teams_store team_id with
  | (Api.Return message, store') =>
      (exists t, Api.get_team teams_store team_id = Api.Return t
         /\ message = lit "Team '" ++ Api.name t ++ lit "' deleted successfully")
      /\ Api.get_team store' team_id
         = Api.HTTPException 404 (lit "Team not found")
      /\ (forall other, other <> team_id ->
            Api.get_team store' other = Api.get_team teams_store other)
      /\ S (Api.health_check store').2 = (Api.health_check teams_store).2
  | (Api.HTTPException status_code detail, store') =>
      status_code = 404%Z /\ store' = teams_store
      /\ Api.get_team teams_store team_id
         = Api.HTTPException 404 (lit "Team not found")
  end.
Proof.
  intros Hkeys. unfold Api.delete_team, Api.get_team, Api.health_check.
  destruct (Api.dict_get teams_store team_id) as [t|] eqn:Hget; simpl; [|done].
  split; [by exists t|]. split; [by rewrite dict_get_pop_eq|]. split.
  - intros other Hne. by rewrite dict_get_pop_ne.
  - apply dict_pop_length. by rewrite Hget.
Qed.

End Registry.

(** * The registry and the operator together *)

Section Together.

Variable uni_isalnum : N -> bool.
Variable uni_lower : list N -> list N.

Abbreviation sanitize := (sanitize_namespace_name uni_isalnum uni_lower).
Abbreviation reconcile := (reconcile_teams uni_isalnum uni_lower).
Abbreviation created := (create_outcome_for uni_isalnum uni_lower).
Abbreviation store_ok := (Api.store_ok uni_lower).

Lemma fetch_payload teams_store :
  fetch_teams (Api.payload teams_store)
  = Api.to_json <$> Api.get_teams teams_store.
Proof. reflexivity. Qed.

Lemma to_json_fields t :
  Api.to_json t !! lit "id" = Some (Api.id t)
  /\ Api.to_json t !! lit "name" = Some (Api.name t).
Proof.
  unfold Api.to_json. split.
  - by rewrite lookup_insert_eq.
  - rewrite lookup_insert_ne by discriminate. by rewrite lookup_insert_eq.
Qed.

Lemma payload_well_formed teams_store :
  Forall well_formed (fetch_teams (Api.payload teams_store)).
Proof.
  rewrite fetch_payload. apply Forall_forall.
  intros x (t & -> & _)%list_elem_of_fmap.
  destruct (to_json_fields t) as [Hid Hname]. split; by eexists.
Qed.

Lemma payload_team_ids teams_store :
  store_ok teams_store ->
  team_ids (fetch_teams (Api.payload teams_store)) = list_to_set teams_store.*1.
Proof.
  intros (_ & Hids & _). rewrite fetch_payload.
  unfold team_ids, Api.get_teams.
  induction Hids as [|[k t] d Hkt Hd IH]; csimpl; [done|].
  simpl in Hkt. destruct (to_json_fields t) as [-> _]. csimpl.
  by rewrite Hkt, IH.
Qed.

Lemma payload_desired_name teams_store team_id :
  store_ok teams_store ->
  desired_name (fetch_teams (Api.payload teams_store)) team_id
  = Api.name <$> Api.dict_get teams_store team_id.
Proof.
  intros (Hkeys & Hids & _). rewrite fetch_payload.
  unfold desired_name, current_teams_of, Api.get_teams.
  assert (Hfold : forall acc,
            foldl add_team acc (Api.to_json <$> teams_store.*2) !! team_id
            = match Api.dict_get teams_store team_id with
              | Some t => Some (Api.to_json t)
              | None => acc !! team_id
              end).
  { clear -Hkeys Hids.
    induction Hids as [|[k t] d Hkt Hd IH]; intros acc; csimpl; [done|].
    simpl in Hkt. apply NoDup_cons in Hkeys as [Hk Hkeys]. simpl in Hk.
    rewrite IH by done. unfold add_team.
    destruct (to_json_fields t) as [-> _]. rewrite Hkt.
    destruct (decide (k = team_id)) as [->|Hne].
    - apply dict_get_None in Hk. rewrite Hk. apply lookup_insert_eq.
    - destruct (Api.dict_get d team_id); [done|]. by apply lookup_insert_ne. }
  rewrite Hfold, lookup_empty.
  destruct (Api.dict_get teams_store team_id) as [t|]; [|done].
  by destruct (to_json_fields t) as [_ ->].
Qed.

Lemma reconcile_well_formed h k8s st :
  Forall well_formed (fetch_teams h) ->
  exists st' tr, reconcile h k8s st = (inl tt, st', tr).
Proof.
  intros Hwf.
  destruct (reconcile h k8s st) as [[[[]|e] st'] tr] eqn:Hrun; [eauto|].
  exfalso.
  destruct (reconcile_spec _ _ _ _ _ _ _ _ Hrun) as (_ & _ & _ & Hwhy).
  destruct Hwhy as [(t & Ht & Hnone)|(team_id & Hin & Hnone)].
  - rewrite Forall_forall in Hwf. destruct (Hwf t Ht) as [[? Hid] _].
    congruence.
  - destruct (desired_name_well_formed uni_lower (fetch_teams h) team_id Hwf)
      as [? Hsome]; [set_solver | congruence].
Qed.

(** X19.  Against the registry of this repository the operator never
    trips: whatever requests built the store, a cycle that fetches its
    teams runs to completion from every state and leaves in
    [known_teams] exactly the ids that the registry holds, and [run]
    does not end with an error at startup. *)
Theorem operator_follows_registry reqs k8s st :
  exists st' tr,
    reconcile (Api.payload (Api.serve_all uni_lower reqs)) k8s st
      = (inl tt, st', tr)
    /\ (forall team_id,
          team_id ∈ known_teams st'
          <-> exists t,
                Api.get_team (Api.serve_all uni_lower reqs) team_id
                = Api.Return t)
    /\ forall poll_interval turns e,
         (run uni_isalnum uni_lower poll_interval
            (Api.payload (Api.serve_all uni_lower reqs)) k8s turns st).1.1
         <> Crashed e.
Proof.
  pose proof (serve_all_ok uni_lower reqs) as Hok.
  set (teams_store := Api.serve_all uni_lower reqs) in *. clearbody teams_store.
  destruct (reconcile_well_formed (Api.payload teams_store) k8s st
              (payload_well_formed teams_store)) as (st' & tr & Hrun).
  exists st', tr. split; [done|]. split.
  - destruct (reconcile_spec _ _ _ _ _ _ _ _ Hrun) as (_ & _ & Hknown & _).
    intros team_id. rewrite Hknown, (payload_team_ids _ Hok), elem_of_list_to_set.
    unfold Api.get_team.
    destruct (Api.dict_get teams_store team_id) as [t|] eqn:Hget.
    + split; [by eexists|]. intros _. apply dict_get_Some in Hget.
      apply list_elem_of_fmap. by exists (team_id, t).
    + split; [|by intros [? ?]]. intros Hin.
      by apply dict_get_None in Hget.
  - intros poll_interval turns e. unfold run. rewrite Hrun.
    pose proof (main_loop_never_crashes uni_isalnum uni_lower poll_interval
                  turns st' e) as Hloop.
    by destruct (main_loop _ _ _ turns st') as [[s st2] tr2].
Qed.

(** X20.  A team that [create_team] accepted gets its namespace in the
    next cycle: when the operator did not know the drawn id, the cycle
    that fetches the new store completes, issues the create for the id
    under the sanitized name of the team, knows the id afterwards, and
    records the name unless the create fails. *)
Theorem created_team_gets_namespace reqs team_name uuid4 now t store' k8s st :
  Api.create_team uni_lower (Api.serve_all uni_lower reqs) team_name uuid4 now
    = (Api.Return t, store') ->
  uuid4 ∉ known_teams st ->
  exists st' tr,
    reconcile (Api.payload store') k8s st = (inl tt, st', tr)
    /\ CreateNamespace uuid4 team_name (sanitize team_name) ∈ tr
    /\ uuid4 ∈ known_teams st'
    /\ (created k8s uuid4 team_name <> CreateFailed ->
        team_namespaces st' !! uuid4 = Some (sanitize team_name)).
Proof.
  intros Hcreate Hnew.
  pose proof (create_team_keeps_ok uni_lower _ team_name uuid4 now
                (serve_all_ok uni_lower reqs)) as Hok.
  rewrite Hcreate in Hok. simpl in Hok.
  assert (Hget : Api.dict_get store' uuid4
                 = Some {| Api.id := uuid4; Api.name := team_name;
                           Api.created_at := now |}).
  { unfold Api.create_team in Hcreate. destruct (existsb _ _); [done|].
    injection Hcreate as <- <-. apply dict_get_set_eq. }
  destruct (reconcile_well_formed (Api.payload store') k8s st
              (payload_well_formed store')) as (st' & tr & Hrun).
  exists st', tr. split; [done|].
  destruct (reconcile_spec _ _ _ _ _ _ _ _ Hrun) as (_ & _ & Hknown & Hcalls & _).
  assert (Hin : uuid4 ∈ team_ids (fetch_teams (Api.payload store'))).
  { rewrite (payload_team_ids _ Hok), elem_of_list_to_set.
    apply dict_get_Some in Hget. apply list_elem_of_fmap. by eexists (_, _). }
  destruct (Hcalls uuid4) as (team_name' & Hname & Hcall & Hns); [set_solver|].
  rewrite (payload_desired_name _ _ Hok), Hget in Hname.
  injection Hname as <-. split; [done|]. split; [by rewrite Hknown|].
  intros Hsucc. rewrite Hns. by destruct (created k8s uuid4 team_name).
Qed.

(** X21.  A team that [delete_team] removed loses its namespace in the
    next cycle: when the operator knew the id and had a namespace on
    record for it, the cycle that fetches the new store completes, issues
    the delete for that namespace, no longer knows the id, and drops the
    record unless the delete fails. *)
Theorem deleted_team_loses_namespace
    reqs team_id message store' k8s st namespace_name :
  Api.delete_team (Api.serve_all uni_lower reqs) team_id
    = (Api.Return message, store') ->
  team_id ∈ known_teams st ->
  team_namespaces st !! team_id = Some namespace_name ->
  exists st' tr,
    reconcile (Api.payload store') k8s st = (inl tt, st', tr)
    /\ DeleteNamespace namespace_name (lit "team-" ++ team_id) ∈ tr
    /\ (team_id ∉ known_teams st')
    /\ (delete_outcome_for k8s team_id namespace_name <> DeleteFailed ->
        team_namespaces st' !! team_id = None).
Proof.
  intros Hdelete Hknown Hns.
  pose proof (serve_all_ok uni_lower reqs) as Hok0.
  pose proof (delete_team_keeps_ok uni_lower _ team_id Hok0) as Hok.
  rewrite Hdelete in Hok. simpl in Hok.
  assert (Hgone : team_id ∉ team_ids (fetch_teams (Api.payload store'))).
  { rewrite (payload_team_ids _ Hok), elem_of_list_to_set.
    apply dict_get_None. unfold Api.delete_team in Hdelete.
    destruct (Api.dict_get _ team_id); [|done]. injection Hdelete as _ <-.
    apply dict_get_pop_eq. by destruct Hok0. }
  destruct (reconcile_well_formed (Api.payload store') k8s st
              (payload_well_formed store')) as (st' & tr & Hrun).
  exists st', tr. split; [done|].
  destruct (reconcile_spec _ _ _ _ _ _ _ _ Hrun)
    as (_ & _ & Hk & _ & Hdel & Hcall & _).
  split; [apply Hcall; [set_solver | done]|].
  split; [by rewrite Hk|].
  intros Hsucc. rewrite Hdel by set_solver. rewrite Hns.
  by destruct (delete_outcome_for k8s team_id namespace_name).
Qed.

(** X22.  The operator does not keep apart two teams whose names
    sanitize to the same namespace name.  When both ids are on record
    under one name and one of the two teams leaves the registry, the
    cycle issues the delete for that name although the other team, which
    stays known, is still recorded under it. *)
Theorem shared_namespace_deleted h k8s st u st' tr gone kept namespace_name :
  reconcile h k8s st = (inl u, st', tr) ->
  team_namespaces st !! gone = Some namespace_name ->
  team_namespaces st !! kept = Some namespace_name ->
  gone ∈ known_teams st -> gone ∉ team_ids (fetch_teams h) ->
  kept ∈ known_teams st -> kept ∈ team_ids (fetch_teams h) ->
  DeleteNamespace namespace_name (lit "team-" ++ gone) ∈ tr
  /\ team_namespaces st' !! kept = Some namespace_name
  /\ kept ∈ known_teams st'.
Proof.
  intros Hrun Hgone Hkept Hg1 Hg2 Hk1 Hk2.
  destruct (reconcile_spec _ _ _ _ _ _ _ _ Hrun)
    as (_ & _ & Hknown & _ & _ & Hcall & Hsame).
  split; [apply Hcall; [set_solver | done]|].
  split; [|by rewrite Hknown].
  rewrite Hsame; [done| |]; set_solver.
Qed.

End Together.

(** * The label of a namespace *)

(** X23.  For an ASCII team name, the label that [create_namespace] puts
    on the namespace is as long as the team name and holds no space and
    no uppercase letter; every other character of the name is kept. *)
Theorem team_name_label_ascii uni_lower team_name :
  forallb is_ascii team_name = true ->
  length (team_name_label uni_lower team_name) = length team_name
  /\ (32 ∉ team_name_label uni_lower team_name)
  /\ (forall c, c ∈ team_name_label uni_lower team_name ->
        is_ascii_upper c = false)
  /\ team_name_label uni_lower team_name
     = map (fun c => if c =? 32 then hyphen else ascii_lower c) team_name.
Proof.
  intros Hascii.
  assert (Heq : team_name_label uni_lower team_name
                = map (fun c => if c =? 32 then hyphen else ascii_lower c)
                    team_name).
  { unfold team_name_label, lower, replace_char.
    assert (forallb is_ascii
              (map (fun c => if c =? 32 then hyphen else c) team_name) = true)
      as ->.
    { apply forallb_forall. intros x (y & <- & Hy)%in_map_iff.
      rewrite forallb_forall in Hascii. destruct (y =? 32); [done | by apply Hascii]. }
    rewrite map_map. apply map_ext. intros c. by destruct (c =? 32). }
  rewrite Heq. split; [apply length_map|]. split; [|split; [|done]].
  - intros (c & Hc & _)%list_elem_of_fmap.
    destruct (c =? 32) eqn:Hne; [done|]. apply N.eqb_neq in Hne.
    unfold ascii_lower in Hc. destruct (is_ascii_upper c) eqn:Hup; [|done].
    unfold is_ascii_upper in Hup. apply andb_true_iff in Hup as [?%N.leb_le _].
    lia.
  - intros c (d & -> & Hd)%list_elem_of_fmap.
    destruct (d =? 32); [done|]. apply ascii_lower_spec.
    rewrite forallb_forall in Hascii. by apply Hascii, list_elem_of_In.
Qed.

(** * The further properties on sample runs *)

Import SampleMore.

(** ** X4 *)

Lemma sanitize_valid_on_short_ascii_witness :
  forallb is_ascii (lit "Backend Team!!") = true
  /\ (length (lit "Backend Team!!") <= 58)%nat
  /\ (exists c, c ∈ lit "Backend Team!!" /\ ascii_isalnum c = true)
  /\ valid_namespace_name
       (sanitize_namespace_name no_isalnum no_lower (lit "Backend Team!!"))
     = true.
Proof.
  assert (Hlen : (length (lit "Backend Team!!") <= 58)%nat) by (simpl; lia).
  assert (Hsome : exists c, c ∈ lit "Backend Team!!" /\ ascii_isalnum c = true).
  { exists 66. split; [left | reflexivity]. }
  split; [reflexivity|]. split; [exact Hlen|]. split; [exact Hsome|].
  exact (sanitize_valid_on_short_ascii no_isalnum no_lower
           (lit "Backend Team!!") eq_refl Hlen Hsome).
Defined.

(** ** X5 to X10: one cycle *)

Lemma sample_cycle :
  reconcile0 (ok [gamma]) cluster_failing tracking_alpha
  = (inl tt,
     {| known_teams := {[ lit "3" ]};
        team_namespaces := {[ lit "1" := lit "team-alpha" ]} |},
     [CreateNamespace (lit "3") (lit "Gamma") (lit "team-gamma");
      DeleteNamespace (lit "team-alpha") (lit "team-1");
      LogSummary 1 1]).
Proof. run_sample. Qed.

Lemma cycle_calls_witness :
  reconcile0 (ok [gamma]) cluster_failing tracking_alpha
  = (inl tt,
     {| known_teams := {[ lit "3" ]};
        team_namespaces := {[ lit "1" := lit "team-alpha" ]} |},
     [CreateNamespace (lit "3") (lit "Gamma") (lit "team-gamma");
      DeleteNamespace (lit "team-alpha") (lit "team-1");
      LogSummary 1 1])
  /\ length
       (omap (create_call no_isalnum no_lower (fetch_teams (ok [gamma])))
          (elements (team_ids (fetch_teams (ok [gamma]))
                     ∖ known_teams tracking_alpha)))
     = size (team_ids (fetch_teams (ok [gamma])) ∖ known_teams tracking_alpha).
Proof.
  split; [exact sample_cycle|].
  exact (proj2 (cycle_calls no_isalnum no_lower _ _ _ _ _ _ sample_cycle)).
Defined.



Lemma unchanged_registry_is_noop_witness :
  Forall (fun t : team => is_Some (t !! lit "id")) (fetch_teams (ok [alpha]))
  /\ team_ids (fetch_teams (ok [alpha])) = known_teams tracking_alpha
  /\ reconcile0 (ok [alpha]) cluster_failing tracking_alpha
     = (inl tt, tracking_alpha, []).
Proof.
  assert (Hids : Forall (fun t : team => is_Some (t !! lit "id"))
                   (fetch_teams (ok [alpha])))
    by (repeat constructor; apply sample_well_formed).
  assert (Hsame : team_ids (fetch_teams (ok [alpha])) = known_teams tracking_alpha)
    by run_sample.
  split; [exact Hids|]. split; [exact Hsame|].
  exact (unchanged_registry_is_noop no_isalnum no_lower _ cluster_failing
           _ Hids Hsame).
Defined.

Lemma kept_team_untouched_witness :
  reconcile0 (ok [alpha; gamma]) cluster_failing tracking_alpha
  = (inl tt,
     {| known_teams := {[ lit "1"; lit "3" ]};
        team_namespaces := {[ lit "1" := lit "team-alpha" ]} |},
     [CreateNamespace (lit "3") (lit "Gamma") (lit "team-gamma");
      LogSummary 2 1])
  /\ (lit "1" ∈ team_ids (fetch_teams (ok [alpha; gamma]))
      <-> lit "1" ∈ known_teams tracking_alpha)
  /\ team_namespaces
       {| known_teams := {[ lit "1"; lit "3" ]};
          team_namespaces := {[ lit "1" := lit "team-alpha" ]} |} !! lit "1"
     = team_namespaces tracking_alpha !! lit "1".
Proof.
  assert (Hrun : reconcile0 (ok [alpha; gamma]) cluster_failing tracking_alpha
                 = (inl tt,
                    {| known_teams := {[ lit "1"; lit "3" ]};
                       team_namespaces := {[ lit "1" := lit "team-alpha" ]} |},
                    [CreateNamespace (lit "3") (lit "Gamma") (lit "team-gamma");
                     LogSummary 2 1])) by run_sample.
  assert (Hkept : lit "1" ∈ team_ids (fetch_teams (ok [alpha; gamma]))
                  <-> lit "1" ∈ known_teams tracking_alpha).
  { assert (team_ids (fetch_teams (ok [alpha; gamma])) = {[ lit "1"; lit "3" ]})
      as -> by run_sample.
    simpl. set_solver. }
  split; [exact Hrun|]. split; [exact Hkept|].
  exact (proj1 (kept_team_untouched no_isalnum no_lower _ _ _ _ _ _ _
                  Hrun Hkept)).
Defined.

Lemma successful_changes_recorded_witness :
  reconcile0 (ok [gamma]) cluster_ok tracking_alpha
  = (inl tt,
     {| known_teams := {[ lit "3" ]};
        team_namespaces := {[ lit "3" := lit "team-gamma" ]} |},
     [CreateNamespace (lit "3") (lit "Gamma") (lit "team-gamma");
      DeleteNamespace (lit "team-alpha") (lit "team-1");
      LogSummary 1 1])
  /\ (lit "1" ∈ known_teams tracking_alpha ∖ team_ids (fetch_teams (ok [gamma])) ->
      lit "1" ∉ known_teams
                  {| known_teams := {[ lit "3" ]};
                     team_namespaces := {[ lit "3" := lit "team-gamma" ]} |}).
Proof.
  assert (Hrun : reconcile0 (ok [gamma]) cluster_ok tracking_alpha
                 = (inl tt,
                    {| known_teams := {[ lit "3" ]};
                       team_namespaces := {[ lit "3" := lit "team-gamma" ]} |},
                    [CreateNamespace (lit "3") (lit "Gamma") (lit "team-gamma");
                     DeleteNamespace (lit "team-alpha") (lit "team-1");
                     LogSummary 1 1])) by run_sample.
  split; [exact Hrun|]. intros Hin.
  exact (proj1 (proj2 (successful_changes_recorded no_isalnum no_lower
                         _ _ _ _ _ _ (lit "1") Hrun) Hin)).
Defined.

(** ** X11 and X14: the loop *)

Lemma run_deletes_only_team_namespaces_witness :
  run no_isalnum no_lower 30 (ok [alpha]) cluster_ok
    [Poll (ok []) cluster_ok] init_state
  = (Running, init_state,
     [CreateNamespace (lit "1") (lit "Alpha") (lit "team-alpha");
      LogSummary 1 1; Sleep 30;
      DeleteNamespace (lit "team-alpha") (lit "team-1"); LogSummary 0 0])
  /\ lit "team-" `prefix_of` lit "team-alpha".
Proof.
  assert (Hrun : run no_isalnum no_lower 30 (ok [alpha]) cluster_ok
                   [Poll (ok []) cluster_ok] init_state
                 = (Running, init_state,
                    [CreateNamespace (lit "1") (lit "Alpha") (lit "team-alpha");
                     LogSummary 1 1; Sleep 30;
                     DeleteNamespace (lit "team-alpha") (lit "team-1");
                     LogSummary 0 0])) by run_sample.
  split; [exact Hrun|].
  refine (proj1 (proj2 (proj2 (run_deletes_only_team_namespaces
            no_isalnum no_lower _ _ _ _ _ _ _ Hrun)
            (lit "team-alpha") (lit "team-1") _))).
  right. right. right. left.
Defined.


(** ** X16 and X18: the registry *)

Lemma create_team_then_get_witness :
  Api.create_team no_lower [] (lit "Alpha") (lit "1")
    (lit "2025-01-01T00:00:00")
  = (Api.Return alpha_record, alpha_store)
  /\ Api.get_team alpha_store (lit "1") = Api.Return alpha_record.
Proof.
  assert (Hcreate : Api.create_team no_lower [] (lit "Alpha") (lit "1")
                      (lit "2025-01-01T00:00:00")
                    = (Api.Return alpha_record, alpha_store)) by reflexivity.
  split; [exact Hcreate|].
  exact (proj1 (create_team_then_get no_lower _ _ _ _ _ _ Hcreate)).
Defined.

Lemma delete_team_effect_witness :
  NoDup alpha_store.*1
  /\ match Api.delete_team alpha_store (lit "1") with
     | (Api.Return _, store') =>
         Api.get_team store' (lit "1")
         = Api.HTTPException 404 (lit "Team not found")
     | (Api.HTTPException _ _, _) => False
     end.
Proof.
  assert (Hkeys : NoDup alpha_store.*1) by apply NoDup_singleton.
  split; [exact Hkeys|].
  pose proof (delete_team_effect alpha_store (lit "1") Hkeys) as Heffect.
  destruct (Api.delete_team alpha_store (lit "1")) as [[message|code detail] store']
    eqn:Hdelete.
  - exact (proj1 (proj2 Heffect)).
  - vm_compute in Hdelete. discriminate Hdelete.
Defined.

(** ** X20 to X22: the registry and the operator *)

Lemma created_team_gets_namespace_witness :
  Api.create_team no_lower (Api.serve_all no_lower []) (lit "Alpha") (lit "1")
    (lit "2025-01-01T00:00:00")
  = (Api.Return alpha_record, alpha_store)
  /\ (lit "1" ∉ known_teams init_state)
  /\ exists st' tr,
       reconcile0 (Api.payload alpha_store) cluster_ok init_state
       = (inl tt, st', tr)
       /\ CreateNamespace (lit "1") (lit "Alpha")
            (sanitize_namespace_name no_isalnum no_lower (lit "Alpha")) ∈ tr.
Proof.
  assert (Hcreate : Api.create_team no_lower (Api.serve_all no_lower [])
                      (lit "Alpha") (lit "1") (lit "2025-01-01T00:00:00")
                    = (Api.Return alpha_record, alpha_store)) by reflexivity.
  assert (Hnew : lit "1" ∉ known_teams init_state) by (simpl; set_solver).
  split; [exact Hcreate|]. split; [exact Hnew|].
  destruct (created_team_gets_namespace no_isalnum no_lower [] _ _ _ _ _
              cluster_ok init_state Hcreate Hnew)
    as (st' & tr & Hrun & Hcall & _).
  exists st', tr. split; assumption.
Defined.

Lemma deleted_team_loses_namespace_witness :
  Api.delete_team
    (Api.serve_all no_lower
       [Api.PostTeam (lit "Alpha") (lit "1") (lit "2025-01-01T00:00:00")])
    (lit "1")
  = (Api.Return (lit "Team 'Alpha' deleted successfully"), [])
  /\ lit "1" ∈ known_teams tracking_alpha
  /\ team_namespaces tracking_alpha !! lit "1" = Some (lit "team-alpha")
  /\ exists st' tr,
       reconcile0 (Api.payload []) cluster_ok tracking_alpha = (inl tt, st', tr)
       /\ DeleteNamespace (lit "team-alpha") (lit "team-" ++ lit "1") ∈ tr.
Proof.
  assert (Hdelete : Api.delete_team
                      (Api.serve_all no_lower
                         [Api.PostTeam (lit "Alpha") (lit "1")
                            (lit "2025-01-01T00:00:00")])
                      (lit "1")
                    = (Api.Return (lit "Team 'Alpha' deleted successfully"), []))
    by run_sample.
  assert (Hknown : lit "1" ∈ known_teams tracking_alpha) by (simpl; set_solver).
  assert (Hns : team_namespaces tracking_alpha !! lit "1"
                = Some (lit "team-alpha")) by run_sample.
  split; [exact Hdelete|]. split; [exact Hknown|]. split; [exact Hns|].
  destruct (deleted_team_loses_namespace no_isalnum no_lower _ _ _ _
              cluster_ok _ _ Hdelete Hknown Hns)
    as (st' & tr & Hrun & Hcall & _).
  exists st', tr. split; assumption.
Defined.

Lemma shared_namespace_deleted_witness :
  reconcile0 (ok [a_dash_b]) cluster_ok sharing
  = (inl tt,
     {| known_teams := {[ lit "2" ]};
        team_namespaces := {[ lit "2" := lit "team-a-b" ]} |},
     [DeleteNamespace (lit "team-a-b") (lit "team-1"); LogSummary 1 1])
  /\ sanitize_namespace_name no_isalnum no_lower (lit "a b")
     = sanitize_namespace_name no_isalnum no_lower (lit "a-b")
  /\ DeleteNamespace (lit "team-a-b") (lit "team-" ++ lit "1")
       ∈ [DeleteNamespace (lit "team-a-b") (lit "team-1"); LogSummary 1 1]
  /\ team_namespaces
       {| known_teams := {[ lit "2" ]};
          team_namespaces := {[ lit "2" := lit "team-a-b" ]} |} !! lit "2"
     = Some (lit "team-a-b").
Proof.
  assert (Hrun : reconcile0 (ok [a_dash_b]) cluster_ok sharing
                 = (inl tt,
                    {| known_teams := {[ lit "2" ]};
                       team_namespaces := {[ lit "2" := lit "team-a-b" ]} |},
                    [DeleteNamespace (lit "team-a-b") (lit "team-1");
                     LogSummary 1 1])) by run_sample.
  assert (Hids : team_ids (fetch_teams (ok [a_dash_b])) = {[ lit "2" ]})
    by run_sample.
  assert (Hne : lit "1" <> lit "2") by discriminate.
  split; [exact Hrun|]. split; [reflexivity|].
  destruct (shared_namespace_deleted no_isalnum no_lower _ _ _ _ _ _
              (lit "1") (lit "2") (lit "team-a-b") Hrun)
    as (Hcall & Hkept & _).
  - run_sample.
  - run_sample.
  - simpl. set_solver.
  - rewrite Hids. set_solver.
  - simpl. set_solver.
  - rewrite Hids. set_solver.
  - split; assumption.
Defined.

(** ** X23 *)

Lemma team_name_label_ascii_witness :
  forallb is_ascii (lit "Backend Team") = true
  /\ team_name_label no_lower (lit "Backend Team") = lit "backend-team".
Proof.
  split; [reflexivity|].
  rewrite (proj2 (proj2 (proj2 (team_name_label_ascii no_lower
                                  (lit "Backend Team") eq_refl)))).
  reflexivity.
Defined.

(** * Steady states and the order of the loops *)

Section Steady.

Variable uni_isalnum : N -> bool.
Variable uni_lower : list N -> list N.

Abbreviation sanitize := (sanitize_namespace_name uni_isalnum uni_lower).
Abbreviation reconcile := (reconcile_teams uni_isalnum uni_lower).
Abbreviation handle_new := (handle_new_team uni_isalnum uni_lower).
Abbreviation created := (create_outcome_for uni_isalnum uni_lower).

(** X24.  A cycle that completes reaches a fixed point at once: a second
    cycle that fetches the same teams, against any cluster, issues no
    call, logs nothing and leaves the state as the first cycle left
    it. *)
Theorem cycle_is_idempotent h k1 k2 st u st' tr :
  reconcile_teams uni_isalnum uni_lower h k1 st = (inl u, st', tr) ->
  reconcile_teams uni_isalnum uni_lower h k2 st' = (inl tt, st', []).
Proof.
  intros Hrun.
  destruct (reconcile_spec _ _ _ _ _ _ _ _ Hrun) as (_ & _ & Hknown & _).
  rewrite reconcile_unfold in Hrun. cbv zeta in Hrun.
  case_bool_decide as Hids; [clear Hrun | done].
  rewrite reconcile_unfold. cbv zeta.
  rewrite bool_decide_eq_true_2 by done. rewrite Hknown.
  rewrite difference_diag_L, elements_empty. simpl. unfold ret.
  rewrite bool_decide_eq_false_2 by (by intros []). simpl.
  rewrite <-Hknown. by destruct st'.
Qed.



End Steady.

Lemma cycle_is_idempotent_witness :
  reconcile0 (ok [gamma]) cluster_failing tracking_alpha
  = (inl tt,
     {| known_teams := {[ lit "3" ]};
        team_namespaces := {[ lit "1" := lit "team-alpha" ]} |},
     [CreateNamespace (lit "3") (lit "Gamma") (lit "team-gamma");
      DeleteNamespace (lit "team-alpha") (lit "team-1");
      LogSummary 1 1])
  /\ reconcile0 (ok [gamma]) cluster_ok
       {| known_teams := {[ lit "3" ]};
          team_namespaces := {[ lit "1" := lit "team-alpha" ]} |}
     = (inl tt,
        {| known_teams := {[ lit "3" ]};
           team_namespaces := {[ lit "1" := lit "team-alpha" ]} |},
        []).
Proof.
  split; [exact sample_cycle|].
  exact (cycle_is_idempotent no_isalnum no_lower _ cluster_failing cluster_ok
           _ _ _ _ sample_cycle).
Defined.


